(** * Bayesian Decomposition (nimfa, [methods/mf/bd.py]): stopping rule,
      run loop, tracking and frame properties of [Bd.factorize].

    The development is a shallow embedding of the class [Bd].  The object
    is a record of attributes, matrices live in an object store (a Python
    reference is an address), the methods are state transformers and the
    [while] loop of [factorize] is run with fuel.

    Objective values are numbers behind an interface with two instances:
    binary64 floats, which is what Python compares, and exact rationals.
    The stopping predicate and the loop are stated for any instance; the
    engine of [Bd] with its matrices is run on exact rationals. *)

From Stdlib Require Import ZArith QArith Lia Floats.
From stdpp Require Import base option list gmap strings.

Local Open Scope Z_scope.

(** ** Python values and truthiness *)

(** A reference: the address of an object in the store. *)
Abbreviation loc := nat.

(** What an option or attribute may hold: [None], a boolean, an integer,
    a float-valued option such as [theta] (held as an exact rational:
    the engine only stores these), or a reference to a matrix or array
    object. *)
Inductive value : Type :=
  | VNone
  | VBool (b : bool)
  | VInt (z : Z)
  | VFloat (q : Q)
  | VRef (l : loc).

(** Python's truth value of an object as used by [if x] and [x and y].
    A reference stands for an object without [__nonzero__] override. *)
Definition truthy (x : value) : bool :=
  match x with
  | VNone => false
  | VBool b => b
  | VInt z => negb (z =? 0)
  | VFloat q => negb (Qeq_bool q 0)
  | VRef _ => true
  end.

(** ** Numbers

    What [_is_satisfied] does with an objective value: subtract,
    compare, and take its truth value.  [leb x y] is Python's [x <= y]
    (and [y >= x]), [ltb x y] is [x < y], [nonzero x] is [bool(x)]. *)
Class Num (N : Type) : Type := {
  sub : N -> N -> N;
  leb : N -> N -> bool;
  ltb : N -> N -> bool;
  nonzero : N -> bool
}.

(** Python's floats: IEEE 754 binary64, with rounding, infinities and
    NaN; every comparison with a NaN is false and NaN is true-valued. *)
#[export] Instance float_num : Num float := {|
  sub := PrimFloat.sub;
  leb := PrimFloat.leb;
  ltb := PrimFloat.ltb;
  nonzero := fun x => negb (PrimFloat.eqb x 0%float)
|}.

(** Exact arithmetic. *)
#[export] Instance Q_num : Num Q := {|
  sub := Qminus;
  leb := Qle_bool;
  ltb := fun x y => negb (Qle_bool y x);
  nonzero := fun x => negb (Qeq_bool x 0)
|}.

(** Truth value of an optional integer / float attribute: unset ([None])
    and zero are both false. *)
Definition truthy_int (x : option Z) : bool :=
  match x with Some z => truthy (VInt z) | None => truthy VNone end.

Definition truthy_float {N : Type} `{Num N} (x : option N) : bool :=
  match x with Some q => nonzero q | None => truthy VNone end.

(** ** The stopping attributes read by [_is_satisfied] *)

Record Stopping (N : Type) : Type := mkStopping {
  max_iters : option Z;
  min_residuals : option N;
  test_conv : option Z
}.
Arguments mkStopping {N} _ _ _.
Arguments max_iters {N} _.
Arguments min_residuals {N} _.
Arguments test_conv {N} _.

(** [Bd._is_satisfied]: three guarded early returns, then [True]. *)
Definition _is_satisfied {N : Type} `{Num N} (self : Stopping N) (pobj cobj : N)
           (iter : Z) : bool :=
  if truthy_int (max_iters self)
     && match max_iters self with Some mi => mi <? iter | None => false end
  then false
  else if truthy_float (min_residuals self) && (0 <? iter)
          && match min_residuals self with
             | Some mr => leb (sub cobj pobj) mr
             | None => false
             end
  then false
  else if (0 <? iter) && leb pobj cobj
  then false
  else true.

(** ** Matrices and the object store *)

Abbreviation Matrix := (list (list Q)).

(** A Python reference is an address into the store; objects are only
    ever created (appended), the engine never writes through a reference. *)
Abbreviation heap := (list Matrix).

Definition alloc (X : Matrix) (h : heap) : loc * heap := (length h, h ++ [X]).

Definition deref (h : heap) (l : loc) : Matrix := default [] (h !! l).

(** [X.copy()]: a new object holding the same entries. *)
Definition copy (l : loc) (h : heap) : loc * heap := alloc (deref h l) h.

Definition nrows (X : Matrix) : nat := length X.
Definition ncols (X : Matrix) : nat := match X with r :: _ => length r | [] => O end.

(** [np.zeros((n, c))] and an empty [sp.csr_matrix((n, c))]. *)
Definition zeros (n c : nat) : Matrix := replicate n (replicate c 0%Q).

Definition qsum (l : list Q) : Q := foldr Qplus 0%Q l.

(** [X.sum()]: the sum of all the entries. *)
Definition msum (X : Matrix) : Q := qsum (map qsum X).

(** [X - Y], entry by entry. *)
Definition msub (X Y : Matrix) : Matrix := zip_with (zip_with Qminus) X Y.

Definition column (j : nat) (Y : Matrix) : list Q := map (fun r => nth j r 0%Q) Y.

Definition inner (r c : list Q) : Q := qsum (zip_with Qmult r c).

(** Modelled from the spec: [utils.linalg.dot] is not among the sources;
    the spec calls [dot(W, H)] the product W·H, so entry (i, j) is the
    inner product of row i of the left factor and column j of the right. *)
Definition dot (X Y : Matrix) : Matrix :=
  map (fun r => map (fun j => inner r (column j Y)) (seq 0 (ncols Y))) X.

(** Modelled from the spec: [utils.linalg.multiply] is not among the
    sources; the element-wise product. *)
Definition multiply (X Y : Matrix) : Matrix := zip_with (zip_with Qmult) X Y.

(** Modelled from the spec: [utils.linalg.elop] is not among the sources;
    [elop(X, y, op)] applies [op(x, y)] to every entry [x] of [X]. *)
Definition elop {A : Type} (X : Matrix) (y : A) (op : Q -> A -> Q) : Matrix :=
  map (map (fun x => op x y)) X.

(** Python's builtin [pow] at an integer exponent. *)
Definition pow (x : Q) (n : Z) : Q := Qpower x n.

(** ** The object: attributes of a [Bd] instance *)

Record Mf_track : Type := mkTrack { track_W : loc; track_H : loc }.

Record Bd : Type := mkBd {
  (* set by the generic layer before [factorize] *)
  V : loc;
  rank : Z;
  options : gmap string value;
  n_run : Z;
  stop : Stopping Q;
  callback : bool;
  (* factors of the current run *)
  W : loc;
  H : loc;
  (* set by [_set_params] *)
  m : value;
  alpha : value;
  beta : value;
  theta : value;
  k : value;
  sigma : value;
  skip : value;
  stride : value;
  chains : value;
  n_w : value;
  n_h : value;
  n_sigma : value;
  tracker : option (list Mf_track);
  (* set by [factorize]; [None] while the attribute does not exist *)
  v : option Q;
  n_iter : option Z;
  final_obj : option Q
}.

Definition set_WH (self : Bd) (lw lh : loc) : Bd :=
  mkBd (V self) (rank self) (options self) (n_run self) (stop self) (callback self)
       lw lh
       (m self) (alpha self) (beta self) (theta self) (k self) (sigma self)
       (skip self) (stride self) (chains self) (n_w self) (n_h self) (n_sigma self)
       (tracker self) (v self) (n_iter self) (final_obj self).

Definition set_tracker (self : Bd) (t : option (list Mf_track)) : Bd :=
  mkBd (V self) (rank self) (options self) (n_run self) (stop self) (callback self)
       (W self) (H self)
       (m self) (alpha self) (beta self) (theta self) (k self) (sigma self)
       (skip self) (stride self) (chains self) (n_w self) (n_h self) (n_sigma self)
       t (v self) (n_iter self) (final_obj self).

Definition set_v (self : Bd) (x : Q) : Bd :=
  mkBd (V self) (rank self) (options self) (n_run self) (stop self) (callback self)
       (W self) (H self)
       (m self) (alpha self) (beta self) (theta self) (k self) (sigma self)
       (skip self) (stride self) (chains self) (n_w self) (n_h self) (n_sigma self)
       (tracker self) (Some x) (n_iter self) (final_obj self).

Definition set_n_iter (self : Bd) (i : Z) : Bd :=
  mkBd (V self) (rank self) (options self) (n_run self) (stop self) (callback self)
       (W self) (H self)
       (m self) (alpha self) (beta self) (theta self) (k self) (sigma self)
       (skip self) (stride self) (chains self) (n_w self) (n_h self) (n_sigma self)
       (tracker self) (v self) (Some i) (final_obj self).

Definition set_final_obj (self : Bd) (x : Q) : Bd :=
  mkBd (V self) (rank self) (options self) (n_run self) (stop self) (callback self)
       (W self) (H self)
       (m self) (alpha self) (beta self) (theta self) (k self) (sigma self)
       (skip self) (stride self) (chains self) (n_w self) (n_h self) (n_sigma self)
       (tracker self) (v self) (n_iter self) (Some x).

(** [self.options.get(key, dflt)]. *)
Definition get (o : gmap string value) (key : string) (dflt : value) : value :=
  default dflt (o !! key).

(** ** The run loop, generic in the overridable methods

    [factorize] calls [self.update()] and [self.objective()] through the
    object, so the loop is stated once for any state type with these two
    methods; [Bd]'s own methods and a scripted objective are instances. *)

Section Sweeps.
Context {St N : Type} `{Num N}.
Variable attrs : St -> Stopping N.
Variable update : St -> St.
Variable objective : St -> N.

(** The locals of the loop together with the object. *)
Definition frame : Type := St * N * N * Z.

(** One pass through the body of the [while]. *)
Definition sweep (f : frame) : frame :=
  let '(s, pobj, cobj, iter) := f in
  let pobj := cobj in
  let s := update s in
  let cobj :=
    if negb (truthy_int (test_conv (attrs s)))
       || match test_conv (attrs s) with
          | Some tc => iter `mod` tc =? 0
          | None => false
          end
    then objective s else cobj in
  (s, pobj, cobj, iter + 1).

Definition guard (f : frame) : bool :=
  let '(s, pobj, cobj, iter) := f in _is_satisfied (attrs s) pobj cobj iter.

(** [while self._is_satisfied(pobj, cobj, iter): ...]; [None] when the
    fuel is used up before the guard fails. *)
Fixpoint sweeps (fuel : nat) (f : frame) : option frame :=
  if guard f then
    match fuel with
    | O => None
    | S fuel' => sweeps fuel' (sweep f)
    end
  else Some f.
End Sweeps.

(** ** The seeder: an external collaborator behind an interface

    [self.seed.initialize(V, rank, options)] returns references to two
    matrices.  A seeder has state of its own (a random stream, stored
    factors) and may create objects in the store. *)

Class Seeder (Sd : Type) : Type :=
  initialize : Sd -> heap -> loc -> Z -> gmap string value -> loc * loc * heap * Sd.

(** What the engine relies on: a seeder creates objects but leaves the
    existing ones alone, and hands back references to existing objects. *)
Class SeederOk (Sd : Type) `{Seeder Sd} : Prop := {
  initialize_extends : forall s h lv r o lw lh h' s',
    initialize s h lv r o = (lw, lh, h', s') -> h `prefix_of` h';
  initialize_valid : forall s h lv r o lw lh h' s',
    initialize s h lv r o = (lw, lh, h', s') ->
    (lw < length h')%nat /\ (lh < length h')%nat
}.

(** ** Program state and the methods of [Bd] *)

Inductive exn : Type := UnboundLocalError.

Inductive outcome (A : Type) : Type :=
  | Done (a : A)
  | Raised (e : exn) (a : A)
  | OutOfFuel.
Arguments Done {A} a.
Arguments Raised {A} e a.
Arguments OutOfFuel {A}.

Section Engine.
Context {Sd : Type} `{Seeder Sd}.

(** The object, the store its references point into, the seeder's own
    state, and what the callback has been shown so far (the callback
    is an observer: it receives the fit wrapping the object). *)
Record State : Type := mkState {
  obj : Bd;
  mem : heap;
  seed : Sd;
  calls : list Bd
}.

Definition with_obj (st : State) (o : Bd) : State :=
  mkState o (mem st) (seed st) (calls st).

(** [Bd._set_params]: every option is read with its default; the
    defaults that are matrices are built before the lookup, as Python
    evaluates the arguments of [get] first.  (A negative [rank] is
    outside the model: the dimensions are taken with [Z.to_nat].) *)
Definition _set_params (st : State) : State :=
  let self := obj st in
  let o := options self in
  let X := deref (mem st) (V self) in
  let r := Z.to_nat (rank self) in
  let '(la, h) := alloc (zeros (nrows X) r) (mem st) in
  let '(lb, h) := alloc (zeros r (ncols X)) h in
  let '(lnw, h) := alloc (zeros r 1) h in
  let '(lnh, h) := alloc (zeros r 1) h in
  mkState
    (mkBd (V self) (rank self) o (n_run self) (stop self) (callback self)
          (W self) (H self)
          (get o "m" (VInt 30))
          (get o "alpha" (VRef la))
          (get o "beta" (VRef lb))
          (get o "theta" (VFloat 0))
          (get o "k" (VFloat 0))
          (get o "sigma" (VFloat 1))
          (get o "skip" (VInt 100))
          (get o "stride" (VInt 1))
          (get o "chains" (VInt 1))
          (get o "n_w" (VRef lnw))
          (get o "n_h" (VRef lnh))
          (get o "n_sigma" (VInt 0))
          (if truthy (get o "track" (VInt 0)) && (1 <? n_run self)
           then Some [] else None)
          (v self) (n_iter self) (final_obj self))
    h (seed st) (calls st).

(** [Bd.update]: the body is a docstring only. *)
Definition update (st : State) : State := st.

(** [Bd.objective]. *)
Definition objective (st : State) : Q :=
  let self := obj st in
  msum (elop (msub (deref (mem st) (V self))
                   (dot (deref (mem st) (W self)) (deref (mem st) (H self))))
             2 pow).

(** The first two statements of a run: seeding, then
    [pobj = cobj = self.objective()], [iter = 0]. *)
Definition start_run (st : State) : frame (St := State) (N := Q) :=
  let self := obj st in
  let '(lw, lh, h, s) := initialize (seed st) (mem st) (V self) (rank self) (options self) in
  let st := mkState (set_WH self lw lh) h s (calls st) in
  let c := objective st in
  (st, c, c, 0).

(** The end of a run: the callback, then the tracker. *)
Definition end_run (st : State) (cobj : Q) : State :=
  let st :=
    if callback (obj st)
    then let o := set_final_obj (obj st) cobj in mkState o (mem st) (seed st) (calls st ++ [o])
    else st in
  match tracker (obj st) with
  | Some t =>
      let '(cw, h) := copy (W (obj st)) (mem st) in
      let '(ch, h) := copy (H (obj st)) h in
      mkState (set_tracker (obj st) (Some (t ++ [mkTrack cw ch]))) h (seed st) (calls st)
  | None => st
  end.

(** One iteration of [for _ in xrange(self.n_run)]; the locals
    [pobj], [cobj], [iter] outlive the iteration. *)
Definition one_run (fuel : nat) (st : State) : option (State * (Q * Q * Z)) :=
  '(st, pobj, cobj, iter) ← sweeps (fun s => stop (obj s)) update objective fuel (start_run st);
  Some (end_run st cobj, (pobj, cobj, iter)).

(** The [for] loop; the locals are unbound before the first run. *)
Fixpoint runs (fuel : nat) (n : nat) (st : State) (locals : option (Q * Q * Z))
  : option (State * option (Q * Q * Z)) :=
  match n with
  | O => Some (st, locals)
  | S n' =>
      '(st, l) ← one_run fuel st;
      runs fuel n' st (Some l)
  end.

(** The two statements before the [for] loop. *)
Definition prologue (st : State) : State :=
  let st := _set_params st in
  let X := deref (mem st) (V (obj st)) in
  with_obj st (set_v (obj st) (msum (multiply X X) / 2)).

(** [Bd.factorize]; the fit returned wraps the object, so the result is
    the final state. *)
Definition factorize (fuel : nat) (st : State) : outcome State :=
  let st := prologue st in
  match runs fuel (Z.to_nat (n_run (obj st))) st None with
  | None => OutOfFuel
  | Some (st, None) => Raised UnboundLocalError st
  | Some (st, Some (_, cobj, iter)) =>
      Done (with_obj st (set_final_obj (set_n_iter (obj st) iter) cobj))
  end.
End Engine.
Arguments State Sd : clear implicits.

(** ** A scripted objective

    A test double in the sense of the spec's synthetic trajectories: a
    subclass whose [update] only counts the sweeps and whose [objective]
    returns the value scripted for the number of sweeps done. *)

Record Scripted (N : Type) : Type := mkScripted { s_stop : Stopping N; s_done : nat }.
Arguments mkScripted {N} _ _.
Arguments s_stop {N} _.
Arguments s_done {N} _.

Definition scripted_update {N : Type} (s : Scripted N) : Scripted N :=
  mkScripted (s_stop s) (S (s_done s)).

Definition scripted_objective {N : Type} (traj : nat -> N) (s : Scripted N) : N :=
  traj (s_done s).

(** A run of the engine's loop on the scripted object, from
    [pobj = cobj = objective()], [iter = 0]. *)
Definition scripted_run {N : Type} `{Num N} (traj : nat -> N) (p : Stopping N)
           (fuel : nat) : option (frame (St := Scripted N) (N := N)) :=
  let s := mkScripted p O in
  let c := scripted_objective traj s in
  sweeps s_stop scripted_update (scripted_objective traj) fuel (s, c, c, 0).

(** A trajectory given as a list of values; [0] past its end. *)
Definition of_list (l : list Q) : nat -> Q := fun i => nth i l 0%Q.

(** ** The stopping rule in the spec's words *)

(** Continue while all three hold, with "unset" read as [None]. *)
Definition spec_continue {N : Type} `{Num N} (self : Stopping N) (pobj cobj : N)
           (iter : Z) : Prop :=
  (iter = 0 \/ max_iters self = None
   \/ exists mi, max_iters self = Some mi /\ iter <= mi)
  /\ (iter = 0 \/ min_residuals self = None
      \/ exists mr, min_residuals self = Some mr /\ ltb mr (sub cobj pobj) = true)
  /\ (iter = 0 \/ ltb cobj pobj = true).

(** The rule the code implements: a parameter that is zero counts as
    unset, the iteration bound is also checked before the first sweep,
    and the two tests on the objectives are the negations of
    [cobj - pobj <= min_residuals] and of [cobj >= pobj] (which differ
    from [>] and [<] on a NaN). *)
Definition code_continue {N : Type} `{Num N} (self : Stopping N) (pobj cobj : N)
           (iter : Z) : Prop :=
  (max_iters self = None \/ max_iters self = Some 0
   \/ exists mi, max_iters self = Some mi /\ iter <= mi)
  /\ (iter = 0 \/ min_residuals self = None
      \/ exists mr, min_residuals self = Some mr
                    /\ (nonzero mr = false \/ leb (sub cobj pobj) mr = false))
  /\ (iter = 0 \/ leb pobj cobj = false).

(** The object held by a frame of the loop. *)
Definition frame_state {St N : Type} (f : frame (St := St) (N := N)) : St :=
  let '(s, _, _, _) := f in s.

(** The state right after seeding. *)
Definition seeded {Sd : Type} `{Seeder Sd} (st : State Sd) : State Sd :=
  frame_state (start_run st).

(** What one run of [Bd] amounts to, as the lemmas below show: seed,
    at most one sweep, then the callback and the tracker. *)
Definition run_step {Sd : Type} `{Seeder Sd} (st : State Sd) : State Sd :=
  end_run (seeded st) (objective (seeded st)).

(** The locals [pobj], [cobj], [iter] a run from [st] leaves behind. *)
Definition run_locals {Sd : Type} `{Seeder Sd} (st : State Sd) : Q * Q * Z :=
  let c := objective (seeded st) in
  (c, c, if guard (fun s : State Sd => stop (obj s)) (seeded st, c, c, 0) then 1 else 0).

(** The last two assignments of [factorize]. *)
Definition finish {Sd : Type} (st : State Sd) (l : Q * Q * Z) : State Sd :=
  let '(_, cobj, iter) := l in
  with_obj st (set_final_obj (set_n_iter (obj st) iter) cobj).

(** Attributes that no statement of a run assigns. *)
Definition same_config (a b : Bd) : Prop :=
  V a = V b /\ rank a = rank b /\ options a = options b /\ n_run a = n_run b
  /\ stop a = stop b /\ callback a = callback b
  /\ alpha a = alpha b /\ beta a = beta b /\ theta a = theta b /\ k a = k b
  /\ n_w a = n_w b /\ n_h a = n_h b.

(** ** A seeder without state

    The simplest seeder: at every call it creates all-ones factors of
    the shapes that fit the target and the rank. *)

Inductive Ones : Type := ones.

Definition all_ones (n c : nat) : Matrix := replicate n (replicate c 1%Q).

#[export] Instance ones_seeder : Seeder Ones :=
  fun s h lv r _ =>
    let X := deref h lv in
    let '(lw, h) := alloc (all_ones (nrows X) (Z.to_nat r)) h in
    let '(lh, h) := alloc (all_ones (Z.to_nat r) (ncols X)) h in
    (lw, lh, h, s).

(** ** Predicates used in the statements *)

Definition nonneg (X : Matrix) : Prop := Forall (Forall (fun x => (0 <= x)%Q)) X.

(** Every row of [X] has [c] entries and there are [n] rows. *)
Definition has_shape (n c : nat) (X : Matrix) : Prop :=
  length X = n /\ Forall (fun r => length r = c) X.

Definition entry (X : Matrix) (i j : nat) : Q := nth j (nth i X []) 0%Q.

(** The [n] x [c] matrix with entry [f i j] at position (i, j). *)
Definition table {A : Type} (n c : nat) (f : nat -> nat -> A) : list (list A) :=
  map (fun i => map (fun j => f i j) (seq 0 c)) (seq 0 n).

(** The objective in the spec's words: the sum over all positions
    (i, j) of V of the square of V[i,j] - sum_k W[i,k]·H[k,j]. *)
Definition sum_sq_residual (n c r : nat) (Vm Wm Hm : Matrix) : Q :=
  qsum (map (fun i =>
    qsum (map (fun j =>
      let e := (entry Vm i j - qsum (map (fun l => entry Wm i l * entry Hm l j) (seq 0 r)))%Q in
      (e * e)%Q) (seq 0 c))) (seq 0 n)).

Definition nonneg_WH {Sd : Type} (st : State Sd) : Prop :=
  nonneg (deref (mem st) (W (obj st))) /\ nonneg (deref (mem st) (H (obj st))).

(** The addresses a tracker's snapshots occupy. *)
Definition snapshot_locs (t : list Mf_track) : list loc :=
  flat_map (fun s => [track_W s; track_H s]) t.

(** [max_iters] is unset, zero, or at least one. *)
Definition max_iters_not_negative {N : Type} (p : Stopping N) : Prop :=
  max_iters p = None \/ max_iters p = Some 0
  \/ exists mi, max_iters p = Some mi /\ 1 <= mi.

(** ** A small instance: V = [[1, 2], [3, 4]], rank 1, seeded with
    W = [[1], [1]] and H = [[1, 1]] *)

Definition example_bd (o : gmap string value) (n : Z) (p : Stopping Q) (cb : bool) : Bd :=
  mkBd O 1 o n p cb O O
       VNone VNone VNone VNone VNone VNone VNone VNone VNone VNone VNone VNone
       None None None None.

Definition example_state (o : gmap string value) (n : Z) (p : Stopping Q) (cb : bool)
  : State Ones :=
  mkState (example_bd o n p cb) [ [[1; 2]; [3; 4]]%Q ] ones [].

Definition unset : Stopping Q := mkStopping None None None.

(** [n] snapshots are tracked, at pairwise different addresses of
    existing objects. *)
Definition tracked {Sd : Type} (n : nat) (st : State Sd) : Prop :=
  exists t, tracker (obj st) = Some t /\ length t = n
            /\ NoDup (snapshot_locs t)
            /\ Forall (fun l => (l < length (mem st))%nat) (snapshot_locs t).

(** The option [track] as [_set_params] reads it. *)
Definition track_requested (self : Bd) : bool := truthy (get (options self) "track" (VInt 0)).

(** ** The error policy in the spec's words

    A configuration the spec calls invalid: a negative prior scale
    [theta], or a prior-rate matrix [alpha] / [beta] or a mask [n_w] /
    [n_h] whose shape does not fit the target and the rank, or a
    prior-rate matrix with a negative entry. *)
Definition invalid_hyperparameter {Sd : Type} (st : State Sd) : Prop :=
  let o := options (obj st) in
  let X := deref (mem st) (V (obj st)) in
  let r := Z.to_nat (rank (obj st)) in
  (exists q, o !! "theta" = Some (VFloat q) /\ (q < 0)%Q)
  \/ (exists l, o !! "alpha" = Some (VRef l)
                /\ (~ has_shape (nrows X) r (deref (mem st) l) \/ ~ nonneg (deref (mem st) l)))
  \/ (exists l, o !! "beta" = Some (VRef l)
                /\ (~ has_shape r (ncols X) (deref (mem st) l) \/ ~ nonneg (deref (mem st) l)))
  \/ (exists l, o !! "n_w" = Some (VRef l) /\ ~ has_shape r 1 (deref (mem st) l))
  \/ (exists l, o !! "n_h" = Some (VRef l) /\ ~ has_shape r 1 (deref (mem st) l)).

(** The policy: an invalid configuration aborts the run before any
    sweep, so [factorize] does not return normally. *)
Definition spec_fails_fast {Sd : Type} `{Seeder Sd} (st : State Sd) : Prop :=
  invalid_hyperparameter st -> forall fuel st', factorize fuel st <> Done st'.

(** The small instance with a negative [theta] and a 1 x 1 [alpha]
    holding -1. *)
Definition invalid_example : State Ones :=
  mkState (example_bd {[ "theta" := VFloat (-1); "alpha" := VRef 1%nat ]} 1 unset false)
          [ [[1; 2]; [3; 4]]%Q; [[-1]]%Q ] ones [].

(** ** Further definitions used by the additional properties *)

(** The sweep counter held by a frame of the loop. *)
Definition frame_iter {St N : Type} (f : frame (St := St) (N := N)) : Z :=
  let '(_, _, _, iter) := f in iter.

(** The small instance with a target that its seeded factors reproduce
    exactly: V = [[1, 1], [1, 1]] = [[1], [1]] · [[1, 1]]. *)
Definition exact_example : State Ones :=
  mkState (example_bd ∅ 1 unset false) [ [[1; 1]; [1; 1]]%Q ] ones [].

(** Each tracked snapshot holds, in the store of [st], the entries the
    factors had at the end of the run that produced it, the runs being
    counted from the state [st0] in which the first one started. *)
Definition snapshots_hold {Sd : Type} `{Seeder Sd} (st0 st : State Sd)
           (t : list Mf_track) : Prop :=
  forall i snap, t !! i = Some snap ->
    deref (mem st) (track_W snap)
    = deref (mem (Nat.iter (S i) run_step st0)) (W (obj (Nat.iter (S i) run_step st0)))
    /\ deref (mem st) (track_H snap)
       = deref (mem (Nat.iter (S i) run_step st0)) (H (obj (Nat.iter (S i) run_step st0))).

(** The fit the callback is shown at the end of a run started in [s]:
    the object after seeding, with [final_obj] just assigned. *)
Definition shown_fit {Sd : Type} `{Seeder Sd} (s : State Sd) : Bd :=
  set_final_obj (obj (seeded s)) (objective (seeded s)).

(** * Properties *)

(** ** Comparisons on exact rationals *)

Lemma Qle_bool_true (x y : Q) : Qle_bool x y = true <-> (x <= y)%Q.
Proof. apply Qle_bool_iff. Qed.

Lemma Qle_bool_false (x y : Q) : Qle_bool x y = false <-> (y < x)%Q.
Proof.
  split.
  - intros E. apply Qnot_le_lt. intros L.
    apply Qle_bool_iff in L. congruence.
  - intros L. destruct (Qle_bool x y) eqn:E; [|reflexivity].
    apply Qle_bool_iff in E. exfalso. exact (Qlt_not_le _ _ L E).
Qed.

Lemma Qeq_bool_true (x y : Q) : Qeq_bool x y = true <-> (x == y)%Q.
Proof. apply Qeq_bool_iff. Qed.

Lemma and_iff_both (A B C D : Prop) : (A <-> B) -> (C <-> D) -> (A /\ C <-> B /\ D).
Proof. tauto. Qed.

(** ** The stopping predicate *)

(** The three early returns of [_is_satisfied], one per failed guard. *)
Lemma _is_satisfied_true {N : Type} `{Num N} (self : Stopping N) (pobj cobj : N)
      (iter : Z) :
  _is_satisfied self pobj cobj iter = true <->
  (truthy_int (max_iters self)
   && match max_iters self with Some mi => mi <? iter | None => false end = false)
  /\ (truthy_float (min_residuals self) && (0 <? iter)
      && match min_residuals self with
         | Some mr => leb (sub cobj pobj) mr
         | None => false
         end = false)
  /\ ((0 <? iter) && leb pobj cobj = false).
Proof.
  unfold _is_satisfied.
  repeat match goal with |- context [if ?b then _ else _] => destruct b end;
    intuition congruence.
Qed.

(** C1, as amended.  For every object, objectives (floats included,
    with their rounding and NaN) and [iter >= 0], [_is_satisfied]
    returns [True] exactly when: [max_iters] is unset or zero or
    [iter <= max_iters]; and [iter == 0] or [min_residuals] is unset or
    zero or not [cobj - pobj <= min_residuals]; and [iter == 0] or not
    [cobj >= pobj]. *)
Theorem C1_is_satisfied_iff {N : Type} `{Num N} (self : Stopping N) (pobj cobj : N)
        (iter : Z) :
  0 <= iter ->
  _is_satisfied self pobj cobj iter = true <-> code_continue self pobj cobj iter.
Proof.
  intros Hi. rewrite _is_satisfied_true. unfold code_continue.
  apply and_iff_both; [|apply and_iff_both].
  - destruct (max_iters self) as [mi|]; simpl.
    + destruct (Z.eqb_spec mi 0) as [->|Hz]; simpl.
      * split; [auto|reflexivity].
      * rewrite Z.ltb_ge. split.
        -- intros L. right. right. exists mi. auto.
        -- intros [E|[E|(mi' & E & L)]]; [discriminate|congruence|congruence].
    + split; [auto|reflexivity].
  - destruct (min_residuals self) as [mr|]; simpl.
    + destruct (Z.ltb_spec 0 iter) as [Hpos|Hnp].
      * rewrite andb_true_r.
        destruct (nonzero mr) eqn:Ez; simpl.
        -- split.
           ++ intros L. right. right. exists mr. auto.
           ++ intros [E|[E|(mr' & E & [Z0|L])]]; [lia|discriminate| |congruence].
              injection E as <-. congruence.
        -- split; [|reflexivity].
           intros _. right. right. exists mr. auto.
      * rewrite andb_false_r. simpl. split; [|reflexivity].
        intros _. left. lia.
    + split; [auto|reflexivity].
  - destruct (Z.ltb_spec 0 iter) as [Hpos|Hnp]; simpl.
    + split; [auto|]. intros [E|L]; [lia|exact L].
    + split; [|reflexivity]. intros _. left. lia.
Qed.

(** The amended rule at a concrete call on floats: zero
    [min_residuals], second check after a decrease from 100 to 80. *)
Lemma C1_is_satisfied_iff_witness :
  0 <= 1 /\
  (_is_satisfied (mkStopping None (Some 0%float) None) 100%float 80%float 1 = true <->
   code_continue (mkStopping None (Some 0%float) None) 100%float 80%float 1).
Proof.
  split; [lia|].
  apply (C1_is_satisfied_iff (mkStopping None (Some 0%float) None) 100%float 80%float 1).
  lia.
Defined.

(** C1 as stated fails on the code, on floats, in four ways:
    [min_residuals = 0] and [max_iters = 0] are treated as unset (the
    predicate returns [True] where the stated conjunction is false); a
    negative [max_iters] stops the loop at [iter = 0] (the predicate
    returns [False] where the stated conjunction is true); and on NaN
    objectives both comparisons of the code are false, so the predicate
    returns [True] where neither [cobj - pobj > min_residuals] nor
    [cobj < pobj] holds. *)
Lemma C1_counterexample :
  (_is_satisfied (mkStopping None (Some 0%float) None) 100%float 80%float 1 = true
   /\ ~ spec_continue (mkStopping None (Some 0%float) None) 100%float 80%float 1)
  /\ (_is_satisfied (mkStopping (Some 0) (@None float) None) 100%float 80%float 1 = true
      /\ ~ spec_continue (mkStopping (Some 0) (@None float) None) 100%float 80%float 1)
  /\ (_is_satisfied (mkStopping (Some (-1)) (@None float) None) 100%float 100%float 0
      = false
      /\ spec_continue (mkStopping (Some (-1)) (@None float) None) 100%float 100%float 0)
  /\ (_is_satisfied (mkStopping None (Some 1%float) None) nan nan 1 = true
      /\ ~ spec_continue (mkStopping None (Some 1%float) None) nan nan 1).
Proof.
  repeat split; try reflexivity; try (left; reflexivity).
  - intros (_ & [E|[E|(mr & E & L)]] & _); simpl in *; try discriminate.
    injection E as <-. vm_compute in L. discriminate.
  - intros ([E|[E|(mi & E & L)]] & _); simpl in *; try discriminate.
    injection E as <-. lia.
  - intros (_ & _ & [E|L]); [discriminate|]. vm_compute in L. discriminate.
Qed.

(** The float instance rounds as Python does: with
    [min_residuals = -1], [pobj = 1] and [cobj = 2^-70] the difference
    rounds to [-1.0], which is [<= -1], and the predicate is false. *)
Lemma _is_satisfied_rounds :
  _is_satisfied (mkStopping None (Some (-1)%float) None) 1%float 0x1p-70%float 1 = false.
Proof. reflexivity. Qed.

(** In exact arithmetic the two negated comparisons are [>] and [<]. *)
Lemma _is_satisfied_iff_exact (self : Stopping Q) (pobj cobj : Q) (iter : Z) :
  0 <= iter ->
  _is_satisfied self pobj cobj iter = true <->
  (max_iters self = None \/ max_iters self = Some 0
   \/ exists mi, max_iters self = Some mi /\ iter <= mi)
  /\ (iter = 0 \/ min_residuals self = None
      \/ exists mr, min_residuals self = Some mr /\ ((mr == 0)%Q \/ (mr < cobj - pobj)%Q))
  /\ (iter = 0 \/ (cobj < pobj)%Q).
Proof.
  intros Hi. rewrite (C1_is_satisfied_iff self pobj cobj iter Hi). unfold code_continue.
  apply and_iff_both; [reflexivity|]. apply and_iff_both.
  - split.
    + intros [E|[E|(mr & E & [Z0|L])]]; auto; right; right; exists mr; split; auto.
      * left. simpl in Z0. apply negb_false_iff, Qeq_bool_true in Z0. exact Z0.
      * right. apply Qle_bool_false. exact L.
    + intros [E|[E|(mr & E & [Z0|L])]]; auto; right; right; exists mr; split; auto.
      * left. simpl. apply negb_false_iff, Qeq_bool_true. exact Z0.
      * right. apply Qle_bool_false. exact L.
  - split; (intros [E|L]; [left; exact E|right; apply Qle_bool_false; exact L]).
Qed.

(** ** The loop *)

Section SweepsFacts.
Context {St N : Type} `{Num N}.
Variable attrs : St -> Stopping N.
Variable update : St -> St.
Variable objective : St -> N.

Lemma sweeps_continue (fuel : nat) (f : frame) :
  guard attrs f = true ->
  sweeps attrs update objective (S fuel) f
  = sweeps attrs update objective fuel (sweep attrs update objective f).
Proof. intros G. simpl. rewrite G. reflexivity. Qed.

Lemma sweeps_stop (fuel : nat) (f : frame) :
  guard attrs f = false -> sweeps attrs update objective fuel f = Some f.
Proof. intros G. destruct fuel; simpl; rewrite G; reflexivity. Qed.

(** The guard never stops the loop before the first sweep, unless a
    negative iteration bound is configured. *)
Lemma guard_first (s : St) (c : N) :
  match max_iters (attrs s) with Some mi => 0 <= mi | None => True end ->
  guard attrs (s, c, c, 0) = true.
Proof.
  intros Hm. unfold guard, _is_satisfied. simpl.
  rewrite andb_false_r. simpl.
  destruct (max_iters (attrs s)) as [mi|]; simpl; [|reflexivity].
  destruct (Z.ltb_spec mi 0); [lia|]. rewrite andb_false_r. reflexivity.
Qed.

(** After a sweep for which [cobj >= pobj] is true the guard fails,
    whatever the parameters. *)
Lemma guard_not_lower (s : St) (pobj cobj : N) (iter : Z) :
  0 < iter -> leb pobj cobj = true -> guard attrs (s, pobj, cobj, iter) = false.
Proof.
  intros Hi Hle. unfold guard, _is_satisfied.
  destruct (Z.ltb_spec 0 iter); [|lia].
  rewrite Hle. simpl.
  repeat match goal with |- context [if ?b then _ else _] => destruct b end;
    reflexivity.
Qed.
End SweepsFacts.

(** In exact arithmetic: after a sweep that did not lower the objective
    the guard fails, whatever the parameters. *)
Lemma guard_no_decrease {St : Type} (attrs : St -> Stopping Q) (s : St)
      (pobj cobj : Q) (iter : Z) :
  0 < iter -> (pobj <= cobj)%Q -> guard attrs (s, pobj, cobj, iter) = false.
Proof.
  intros Hi Hle. apply guard_not_lower; [exact Hi|].
  apply Qle_bool_true. exact Hle.
Qed.

(** The guard on a scripted object with only [max_iters] set, after a
    sweep that lowered the objective. *)
Lemma scripted_guard_decrease (mi : Z) (s : Scripted Q) (pobj cobj : Q) (iter : Z) :
  s_stop s = mkStopping (Some mi) None None ->
  (cobj < pobj)%Q ->
  guard s_stop (s, pobj, cobj, iter) = negb (negb (mi =? 0) && (mi <? iter)).
Proof.
  intros E L. unfold guard, _is_satisfied. rewrite E. simpl.
  rewrite (proj2 (Qle_bool_false _ _) L), andb_false_r.
  destruct (negb (mi =? 0) && (mi <? iter)); reflexivity.
Qed.

(** C2 on the code.  With [max_iters = 5], [min_residuals] and
    [test_conv] unset and a strictly decreasing objective, the loop
    runs six sweeps: the guard still passes at [iter = 5] and first
    fails at [iter = 6]. *)
Theorem C2_max_iters_5_runs_6_sweeps (traj : nat -> Q) :
  (forall i, (traj (S i) < traj i)%Q) ->
  forall fuel,
    scripted_run traj (mkStopping (Some 5) None None) (6 + fuel)
    = Some (mkScripted (mkStopping (Some 5) None None) 6, traj 5%nat, traj 6%nat, 6).
Proof.
  intros Hdec fuel. unfold scripted_run, scripted_objective. simpl s_done.
  change (6 + fuel)%nat with (S (S (S (S (S (S fuel)))))).
  rewrite sweeps_continue by (apply guard_first; simpl; lia).
  unfold sweep at 1, scripted_update, scripted_objective; cbn -[sweeps].
  do 5 (rewrite sweeps_continue
          by (rewrite (scripted_guard_decrease 5) by (reflexivity || apply Hdec);
              reflexivity);
        unfold sweep at 1, scripted_update, scripted_objective; cbn -[sweeps]).
  apply sweeps_stop.
  rewrite (scripted_guard_decrease 5) by (reflexivity || apply Hdec).
  reflexivity.
Qed.

(** The six sweeps on the trajectory 0, -1, -2, ... *)
Lemma C2_max_iters_5_runs_6_sweeps_witness :
  (forall i, (- inject_Z (Z.of_nat (S i)) < - inject_Z (Z.of_nat i))%Q) /\
  scripted_run (fun i => (- inject_Z (Z.of_nat i))%Q) (mkStopping (Some 5) None None) 6
  = Some (mkScripted (mkStopping (Some 5) None None) 6,
          (- inject_Z (Z.of_nat 5))%Q, (- inject_Z (Z.of_nat 6))%Q, 6).
Proof.
  assert (Hd : forall i, (- inject_Z (Z.of_nat (S i)) < - inject_Z (Z.of_nat i))%Q).
  { intros i. unfold Qlt. simpl. lia. }
  split; [exact Hd|].
  exact (C2_max_iters_5_runs_6_sweeps (fun i => (- inject_Z (Z.of_nat i))%Q) Hd 0).
Defined.

(** C5.  On the trajectory 100, 80, 85 with [min_residuals = 0] and
    [max_iters] unset the loop runs exactly two sweeps: the guard passes
    at [iter = 1] (80 < 100; a zero [min_residuals] is not checked) and
    fails at [iter = 2] (85 >= 80). *)
Theorem C5_trajectory_100_80_85 (fuel : nat) :
  scripted_run (of_list [100; 80; 85]%Q) (mkStopping None (Some 0%Q) None) (2 + fuel)
  = Some (mkScripted (mkStopping None (Some 0%Q) None) 2, 80%Q, 85%Q, 2).
Proof.
  unfold scripted_run. change (2 + fuel)%nat with (S (S fuel)).
  rewrite sweeps_continue by reflexivity.
  rewrite sweeps_continue by reflexivity.
  apply sweeps_stop. reflexivity.
Qed.

(** The same run on floats, as Python evaluates it. *)
Lemma trajectory_100_80_85_on_floats (fuel : nat) :
  scripted_run (fun i => match i with O => 100 | 1%nat => 80 | _ => 85 end)%float
               (mkStopping None (Some 0%float) None) (2 + fuel)
  = Some (mkScripted (mkStopping None (Some 0%float) None) 2, 80%float, 85%float, 2).
Proof.
  unfold scripted_run. change (2 + fuel)%nat with (S (S fuel)).
  rewrite sweeps_continue by reflexivity.
  rewrite sweeps_continue by reflexivity.
  apply sweeps_stop. reflexivity.
Qed.

(** ** The engine of [Bd] *)

Section EngineFacts.
Context {Sd : Type} `{Seeder Sd}.

Local Abbreviation bd_sweeps := (sweeps (fun s : State Sd => stop (obj s)) update objective).
Local Abbreviation bd_sweep := (sweep (fun s : State Sd => stop (obj s)) update objective).
Local Abbreviation bd_guard := (guard (fun s : State Sd => stop (obj s))).

Lemma start_run_eq (st : State Sd) :
  start_run st = (seeded st, objective (seeded st), objective (seeded st), 0).
Proof.
  unfold seeded, start_run.
  destruct (initialize _ _ _ _ _) as [[[lw lh] h] s]. reflexivity.
Qed.

Lemma seeded_eq (st : State Sd) lw lh h s :
  initialize (seed st) (mem st) (V (obj st)) (rank (obj st)) (options (obj st))
  = (lw, lh, h, s) ->
  seeded st = mkState (set_WH (obj st) lw lh) h s (calls st).
Proof. intros E. unfold seeded, start_run. rewrite E. reflexivity. Qed.

(** The objective is recomputed after the first sweep whatever
    [test_conv] is, since [0 % test_conv == 0]. *)
Lemma bd_sweep_first (st : State Sd) (p c : Q) :
  bd_sweep (st, p, c, 0) = (st, c, objective st, 1).
Proof.
  unfold sweep, update.
  destruct (test_conv (stop (obj st))) as [tc|].
  - rewrite Zmod_0_l. change (0 =? 0) with true.
    rewrite orb_true_r. reflexivity.
  - reflexivity.
Qed.

Lemma bd_guard_after (st : State Sd) (c : Q) (iter : Z) :
  0 < iter -> bd_guard (st, c, c, iter) = false.
Proof. intros Hi. apply guard_no_decrease; [exact Hi|apply Qle_refl]. Qed.

(** The loop of one run: at most one sweep, and exactly one when the
    guard lets the first sweep start. *)
Lemma bd_sweeps_eq (fuel : nat) (st : State Sd) :
  let c := objective st in
  bd_sweeps (S fuel) (st, c, c, 0)
  = Some (st, c, c, if bd_guard (st, c, c, 0) then 1 else 0).
Proof.
  intros c. destruct (bd_guard (st, c, c, 0)) eqn:G.
  - rewrite sweeps_continue by exact G.
    rewrite bd_sweep_first. fold c.
    apply sweeps_stop, bd_guard_after. lia.
  - apply sweeps_stop. exact G.
Qed.

Lemma one_run_eq (fuel : nat) (st : State Sd) :
  let c := objective (seeded st) in
  one_run (S fuel) st
  = Some (end_run (seeded st) c,
          (c, c, if bd_guard (seeded st, c, c, 0) then 1 else 0)).
Proof.
  intros c. unfold one_run. rewrite start_run_eq. fold c.
  unfold c. rewrite bd_sweeps_eq. reflexivity.
Qed.

Lemma same_config_refl (a : Bd) : same_config a a.
Proof. unfold same_config. tauto. Qed.

Lemma same_config_trans (a b c : Bd) :
  same_config a b -> same_config b c -> same_config a c.
Proof. unfold same_config. intuition congruence. Qed.

Lemma seeded_config (st : State Sd) : same_config (obj st) (obj (seeded st)).
Proof.
  unfold seeded, start_run.
  destruct (initialize _ _ _ _ _) as [[[lw lh] h] s]. simpl.
  unfold same_config. simpl. tauto.
Qed.

Lemma end_run_config (st : State Sd) (c : Q) : same_config (obj st) (obj (end_run st c)).
Proof.
  unfold end_run. destruct (callback (obj st)); simpl;
    destruct (tracker (obj st)); simpl; unfold same_config; simpl; tauto.
Qed.

Lemma end_run_WH (st : State Sd) (c : Q) :
  W (obj (end_run st c)) = W (obj st) /\ H (obj (end_run st c)) = H (obj st).
Proof.
  unfold end_run. destruct (callback (obj st)); simpl;
    destruct (tracker (obj st)); simpl; tauto.
Qed.

Lemma end_run_extends (st : State Sd) (c : Q) : mem st `prefix_of` mem (end_run st c).
Proof.
  unfold end_run. destruct (callback (obj st)); simpl;
    destruct (tracker (obj st)); simpl; try reflexivity;
    rewrite <- app_assoc; apply prefix_app_r; reflexivity.
Qed.

Lemma _set_params_extends (st : State Sd) : mem st `prefix_of` mem (_set_params st).
Proof.
  unfold _set_params. simpl. rewrite <- !app_assoc. apply prefix_app_r. reflexivity.
Qed.


Lemma one_run_step (fuel : nat) (st : State Sd) :
  one_run (S fuel) st = Some (run_step st, run_locals st).
Proof. apply one_run_eq. Qed.

(** The [for] loop in closed form: it always ends, in the state
    reached by [n] runs, with the locals of the last of them. *)
Lemma runs_eq (fuel n : nat) (st : State Sd) (l : option (Q * Q * Z)) :
  runs (S fuel) n st l
  = Some (Nat.iter n run_step st,
          match n with
          | O => l
          | S n' => Some (run_locals (Nat.iter n' run_step st))
          end).
Proof.
  revert st l. induction n as [|n IH]; intros st l; [reflexivity|].
  cbn [runs]. rewrite one_run_step. cbn [mbind option_bind].
  rewrite IH. rewrite <- Nat.iter_succ_r. f_equal. f_equal.
  destruct n as [|n']; [reflexivity|].
  rewrite <- Nat.iter_succ_r. reflexivity.
Qed.

Lemma prologue_n_run (st : State Sd) : n_run (obj (prologue st)) = n_run (obj st).
Proof. reflexivity. Qed.

(** [factorize] in closed form. *)
Lemma factorize_eq (fuel : nat) (st : State Sd) :
  factorize (S fuel) st
  = match Z.to_nat (n_run (obj st)) with
    | O => Raised UnboundLocalError (prologue st)
    | S n' =>
        Done (finish (Nat.iter (S n') run_step (prologue st))
                     (run_locals (Nat.iter n' run_step (prologue st))))
    end.
Proof.
  unfold factorize. rewrite runs_eq, prologue_n_run.
  destruct (Z.to_nat (n_run (obj st))) as [|n']; [reflexivity|].
  unfold finish. destruct (run_locals _) as [[p c] i]. reflexivity.
Qed.
End EngineFacts.

(** ** The all-ones seeder meets the seeder contract *)

#[export] Instance ones_seeder_ok : SeederOk Ones.
Proof.
  split.
  - intros s h lv r o lw lh h' s' E. unfold initialize, ones_seeder in E.
    simpl in E. injection E as <- <- <- <-.
    rewrite <- app_assoc. apply prefix_app_r. reflexivity.
  - intros s h lv r o lw lh h' s' E. unfold initialize, ones_seeder in E.
    simpl in E. injection E as <- <- <- <-.
    rewrite !length_app. simpl. lia.
Qed.

(** ** Reading through references while the store grows *)

Lemma deref_prefix (h h' : heap) (l : loc) :
  h `prefix_of` h' -> (l < length h)%nat -> deref h' l = deref h l.
Proof.
  intros P L. unfold deref. rewrite (prefix_lookup_lt h h' l L P). reflexivity.
Qed.

Lemma deref_alloc (X : Matrix) (h : heap) :
  deref (alloc X h).2 (alloc X h).1 = X.
Proof.
  unfold deref, alloc. simpl.
  rewrite (list_lookup_middle h [] X (length h) eq_refl). reflexivity.
Qed.

Section RunFacts.
Context {Sd : Type} `{SeederOk Sd}.

Lemma seeded_extends (st : State Sd) : mem st `prefix_of` mem (seeded st).
Proof.
  destruct (initialize (seed st) (mem st) (V (obj st)) (rank (obj st)) (options (obj st)))
    as [[[lw lh] h] s] eqn:E.
  rewrite (seeded_eq st _ _ _ _ E). simpl.
  eapply initialize_extends. exact E.
Qed.

Lemma seeded_valid (st : State Sd) :
  (W (obj (seeded st)) < length (mem (seeded st)))%nat
  /\ (H (obj (seeded st)) < length (mem (seeded st)))%nat.
Proof.
  destruct (initialize (seed st) (mem st) (V (obj st)) (rank (obj st)) (options (obj st)))
    as [[[lw lh] h] s] eqn:E.
  rewrite (seeded_eq st _ _ _ _ E). simpl.
  eapply initialize_valid. exact E.
Qed.

Lemma run_step_extends (st : State Sd) : mem st `prefix_of` mem (run_step st).
Proof.
  unfold run_step. etransitivity; [apply seeded_extends|apply end_run_extends].
Qed.

Lemma run_step_config (st : State Sd) : same_config (obj st) (obj (run_step st)).
Proof.
  unfold run_step. eapply same_config_trans; [apply seeded_config|apply end_run_config].
Qed.

Lemma iter_extends (n : nat) (st : State Sd) :
  mem st `prefix_of` mem (Nat.iter n run_step st).
Proof.
  induction n as [|n IH]; simpl; [reflexivity|].
  etransitivity; [exact IH|apply run_step_extends].
Qed.

Lemma iter_config (n : nat) (st : State Sd) :
  same_config (obj st) (obj (Nat.iter n run_step st)).
Proof.
  induction n as [|n IH]; simpl; [apply same_config_refl|].
  eapply same_config_trans; [exact IH|apply run_step_config].
Qed.

(** The factors a run leaves in the object are the seeder's. *)
Lemma run_step_factors (st : State Sd) :
  W (obj (run_step st)) = W (obj (seeded st))
  /\ H (obj (run_step st)) = H (obj (seeded st))
  /\ deref (mem (run_step st)) (W (obj (seeded st)))
     = deref (mem (seeded st)) (W (obj (seeded st)))
  /\ deref (mem (run_step st)) (H (obj (seeded st)))
     = deref (mem (seeded st)) (H (obj (seeded st))).
Proof.
  unfold run_step.
  destruct (end_run_WH (seeded st) (objective (seeded st))) as [EW EH].
  destruct (seeded_valid st) as [LW LH].
  repeat split; [exact EW|exact EH| |];
    apply deref_prefix; auto using end_run_extends.
Qed.
End RunFacts.

(** ** One sweep per run *)

Lemma finish_n_iter {Sd : Type} (st : State Sd) (p c : Q) (i : Z) :
  n_iter (obj (finish st (p, c, i))) = Some i.
Proof. reflexivity. Qed.

Lemma guard_seeded_first {Sd : Type} `{Seeder Sd} (st : State Sd) (c : Q) :
  max_iters_not_negative (stop (obj st)) ->
  guard (fun s : State Sd => stop (obj s)) (seeded st, c, c, 0) = true.
Proof.
  intros Hm. apply guard_first.
  destruct (seeded_config st) as (_ & _ & _ & _ & <- & _).
  destruct Hm as [->|[->|(mi & -> & L)]]; simpl; lia.
Qed.

(** C4.  When [max_iters] is unset, zero or at least one, every run
    performs the body of its loop exactly once: the guard lets the loop
    start, the frame the loop ends in is one [sweep] after [start_run],
    there [cobj = pobj] and [iter = 1] and the guard is false, and the
    run hands exactly this frame to its end (callback and tracker).
    [factorize] is the sequence of these runs: each run of the [for]
    loop starts in the state the previous one left, with the same
    stopping parameters, and with at least one run [factorize] returns
    the state left by the last run with [n_iter = 1] and the last
    objective in [final_obj]. *)
Theorem C4_one_sweep_per_run {Sd : Type} `{Seeder Sd} (fuel : nat) (st : State Sd) :
  max_iters_not_negative (stop (obj st)) ->
  (forall s : State Sd,
      stop (obj s) = stop (obj st) ->
      let body := sweep (fun s : State Sd => stop (obj s)) update objective in
      guard (fun s : State Sd => stop (obj s)) (start_run s) = true
      /\ sweeps (fun s : State Sd => stop (obj s)) update objective (S fuel) (start_run s)
         = Some (body (start_run s))
      /\ (let '(_, pobj, cobj, iter) := body (start_run s) in cobj = pobj /\ iter = 1)
      /\ guard (fun s : State Sd => stop (obj s)) (body (start_run s)) = false
      /\ (let '(s1, pobj, cobj, iter) := body (start_run s) in
          one_run (S fuel) s = Some (end_run s1 cobj, (pobj, cobj, iter))))
  /\ (forall (j : nat) (s : State Sd) (l : option (Q * Q * Z)),
         runs (S fuel) j (prologue st) None = Some (s, l) ->
         stop (obj s) = stop (obj st)
         /\ exists s' l', one_run (S fuel) s = Some (s', l')
                          /\ runs (S fuel) (S j) (prologue st) None = Some (s', Some l'))
  /\ (1 <= n_run (obj st) ->
      exists s c st',
        runs (S fuel) (Z.to_nat (n_run (obj st))) (prologue st) None
        = Some (s, Some (c, c, 1))
        /\ st' = with_obj s (set_final_obj (set_n_iter (obj s) 1) c)
        /\ factorize (S fuel) st = Done st' /\ n_iter (obj st') = Some 1).
Proof.
  intros Hm.
  assert (Hstop : forall j, stop (obj (Nat.iter j run_step (prologue st))) = stop (obj st)).
  { intros j. destruct (iter_config j (prologue st)) as (_ & _ & _ & _ & <- & _).
    reflexivity. }
  split; [|split].
  - intros s Es body. unfold body.
    assert (G : guard (fun s : State Sd => stop (obj s))
                  (seeded s, objective (seeded s), objective (seeded s), 0) = true).
    { apply guard_seeded_first. rewrite Es. exact Hm. }
    rewrite one_run_eq, start_run_eq, bd_sweeps_eq, G, bd_sweep_first.
    repeat split. apply bd_guard_after. lia.
  - intros j s l Hr. rewrite runs_eq in Hr. injection Hr as <- _.
    split; [apply Hstop|].
    exists (run_step (Nat.iter j run_step (prologue st))),
           (run_locals (Nat.iter j run_step (prologue st))).
    split; [apply one_run_step|]. rewrite runs_eq. reflexivity.
  - intros Hn. rewrite factorize_eq, runs_eq.
    destruct (Z.to_nat (n_run (obj st))) as [|n'] eqn:En; [lia|].
    assert (El : run_locals (Nat.iter n' run_step (prologue st))
                 = (objective (seeded (Nat.iter n' run_step (prologue st))),
                    objective (seeded (Nat.iter n' run_step (prologue st))), 1)).
    { unfold run_locals. rewrite guard_seeded_first; [reflexivity|].
      rewrite Hstop. exact Hm. }
    rewrite El. eexists. eexists. eexists.
    split; [reflexivity|]. split; [reflexivity|]. split; reflexivity.
Qed.

(** C4 on the small instance: one run, nothing configured.  The state
    returned holds the seeded factors and the objective 14 of the run. *)
Lemma C4_one_sweep_per_run_witness :
  max_iters_not_negative (stop (obj (example_state ∅ 1 unset false)))
  /\ 1 <= n_run (obj (example_state ∅ 1 unset false))
  /\ exists st', factorize 1 (example_state ∅ 1 unset false) = Done st'
                 /\ n_iter (obj st') = Some 1
                 /\ final_obj (obj st') = Some 14%Q
                 /\ deref (mem st') (W (obj st')) = [[1]; [1]]%Q
                 /\ deref (mem st') (H (obj st')) = [[1; 1]]%Q.
Proof.
  assert (Hm : max_iters_not_negative (stop (obj (example_state ∅ 1 unset false))))
    by (left; reflexivity).
  assert (Hn : 1 <= n_run (obj (example_state ∅ 1 unset false))) by (simpl; lia).
  split; [exact Hm|]. split; [exact Hn|].
  destruct (proj2 (proj2 (C4_one_sweep_per_run 0 (example_state ∅ 1 unset false) Hm)) Hn)
    as (s & c & st' & Hr & Est & Hf & Hi).
  exists st'. split; [exact Hf|]. split; [exact Hi|].
  vm_compute in Hr. injection Hr as <- <-. subst st'.
  split; [|split]; reflexivity.
Defined.

(** ** [update] is a frame for everything *)

(** C3.  [update] returns the state it was given.  With at least one
    run, [factorize] returns, and the factors in the object are the two
    references the seeder returned in the last run, still holding the
    entries they held when the seeder returned them. *)
Theorem C3_update_changes_nothing {Sd : Type} `{SeederOk Sd} (fuel : nat) (st : State Sd) :
  (forall s : State Sd, update s = s)
  /\ (1 <= n_run (obj st) ->
      exists st_last l lw lh h sd st',
        runs (S fuel) (Z.to_nat (n_run (obj st)) - 1) (prologue st) None = Some (st_last, l)
        /\ initialize (seed st_last) (mem st_last) (V (obj st_last))
                      (rank (obj st_last)) (options (obj st_last)) = (lw, lh, h, sd)
        /\ factorize (S fuel) st = Done st'
        /\ W (obj st') = lw /\ H (obj st') = lh
        /\ deref (mem st') lw = deref h lw /\ deref (mem st') lh = deref h lh).
Proof.
  split; [reflexivity|]. intros Hn.
  rewrite factorize_eq, runs_eq.
  destruct (Z.to_nat (n_run (obj st))) as [|n'] eqn:En; [lia|].
  replace (S n' - 1)%nat with n' by lia.
  set (st_last := Nat.iter n' run_step (prologue st)).
  destruct (initialize (seed st_last) (mem st_last) (V (obj st_last))
                       (rank (obj st_last)) (options (obj st_last)))
    as [[[lw lh] h] sd] eqn:E.
  exists st_last. eexists. exists lw, lh, h, sd. eexists.
  split; [reflexivity|]. split; [exact E|]. split; [reflexivity|].
  cbn [Nat.iter]. fold st_last.
  destruct (run_locals st_last) as [[p c] i]. cbn [finish with_obj obj mem].
  destruct (run_step_factors st_last) as (EW & EH & DW & DH).
  rewrite (seeded_eq st_last _ _ _ _ E) in EW, EH, DW, DH. simpl in EW, EH, DW, DH.
  simpl. auto.
Qed.

(** C3 on the small instance with two runs. *)
Lemma C3_update_changes_nothing_witness :
  1 <= n_run (obj (example_state ∅ 2 unset false))
  /\ exists st', factorize 1 (example_state ∅ 2 unset false) = Done st'
                 /\ deref (mem st') (W (obj st')) = [[1]; [1]]%Q
                 /\ deref (mem st') (H (obj st')) = [[1; 1]]%Q.
Proof.
  assert (Hn : 1 <= n_run (obj (example_state ∅ 2 unset false))) by (simpl; lia).
  split; [exact Hn|].
  destruct (proj2 (C3_update_changes_nothing 0 (example_state ∅ 2 unset false)) Hn)
    as (st_last & l & lw & lh & h & sd & st' & _ & _ & E & _).
  exists st'. split; [exact E|].
  vm_compute in E. injection E as <-. split; reflexivity.
Defined.

(** ** Non-negativity of the factors *)

Lemma bd_sweep_state {Sd : Type} (f : frame (St := State Sd)) :
  frame_state (sweep (fun s : State Sd => stop (obj s)) update objective f) = frame_state f.
Proof. destruct f as [[[s p] c] i]. reflexivity. Qed.

Lemma bd_sweep_iter_state {Sd : Type} (j : nat) (f : frame (St := State Sd)) :
  frame_state (Nat.iter j (sweep (fun s : State Sd => stop (obj s)) update objective) f)
  = frame_state f.
Proof.
  induction j as [|j IH]; [reflexivity|].
  rewrite Nat.iter_succ, bd_sweep_state. exact IH.
Qed.

(** C9.  If the seeder only returns entrywise non-negative factors,
    then: a pass through the loop body keeps W and H non-negative;
    after any number of sweeps of any run W and H are non-negative; and
    with at least one run [factorize] returns with non-negative W, H. *)
Theorem C9_factors_stay_nonneg {Sd : Type} `{SeederOk Sd} (fuel : nat) (st : State Sd) :
  (forall s h lv r o lw lh h' s',
      initialize s h lv r o = (lw, lh, h', s') ->
      nonneg (deref h' lw) /\ nonneg (deref h' lh)) ->
  (forall f : frame (St := State Sd),
      nonneg_WH (frame_state f) ->
      nonneg_WH (frame_state (sweep (fun s : State Sd => stop (obj s)) update objective f)))
  /\ (forall (s : State Sd) (j : nat),
         nonneg_WH (frame_state
           (Nat.iter j (sweep (fun s : State Sd => stop (obj s)) update objective)
                     (start_run s))))
  /\ (1 <= n_run (obj st) ->
      exists st', factorize (S fuel) st = Done st' /\ nonneg_WH st').
Proof.
  intros Hseed.
  assert (Hs : forall s : State Sd, nonneg_WH (seeded s)).
  { intros s.
    destruct (initialize (seed s) (mem s) (V (obj s)) (rank (obj s)) (options (obj s)))
      as [[[lw lh] h] sd] eqn:E.
    rewrite (seeded_eq s _ _ _ _ E). unfold nonneg_WH. simpl.
    eapply Hseed. exact E. }
  split; [|split].
  - intros f Hf. rewrite bd_sweep_state. exact Hf.
  - intros s j. rewrite bd_sweep_iter_state. apply Hs.
  - intros Hn. rewrite factorize_eq.
    destruct (Z.to_nat (n_run (obj st))) as [|n'] eqn:En; [lia|].
    eexists. split; [reflexivity|].
    rewrite Nat.iter_succ. set (st_last := Nat.iter n' run_step (prologue st)).
    destruct (run_locals st_last) as [[p c] i].
    destruct (run_step_factors st_last) as (EW & EH & DW & DH).
    unfold nonneg_WH. cbn [finish with_obj obj mem set_final_obj set_n_iter W H].
    rewrite EW, EH, DW, DH. apply Hs.
Qed.

Lemma all_ones_nonneg (n c : nat) : nonneg (all_ones n c).
Proof.
  unfold nonneg, all_ones. apply Forall_replicate, Forall_replicate.
  unfold Qle. simpl. lia.
Qed.

Lemma ones_seeder_nonneg (s : Ones) h lv r o lw lh h' s' :
  initialize s h lv r o = (lw, lh, h', s') ->
  nonneg (deref h' lw) /\ nonneg (deref h' lh).
Proof.
  intros E. unfold initialize, ones_seeder in E. simpl in E.
  injection E as <- <- <- <-.
  set (X := all_ones (nrows (deref h lv)) (Z.to_nat r)).
  set (Y := all_ones (Z.to_nat r) (ncols (deref h lv))).
  split.
  - rewrite (deref_prefix (h ++ [X]) ((h ++ [X]) ++ [Y]) (length h)).
    + exact (eq_ind_r nonneg (all_ones_nonneg _ _) (deref_alloc X h)).
    + apply prefix_app_r. reflexivity.
    + rewrite length_app. simpl. lia.
  - exact (eq_ind_r nonneg (all_ones_nonneg _ _) (deref_alloc Y (h ++ [X]))).
Qed.

(** C9 on the small instance with three runs. *)
Lemma C9_factors_stay_nonneg_witness :
  (forall (s : Ones) h lv r o lw lh h' s',
      initialize s h lv r o = (lw, lh, h', s') ->
      nonneg (deref h' lw) /\ nonneg (deref h' lh))
  /\ 1 <= n_run (obj (example_state ∅ 3 unset false))
  /\ exists st', factorize 1 (example_state ∅ 3 unset false) = Done st' /\ nonneg_WH st'.
Proof.
  assert (Hn : 1 <= n_run (obj (example_state ∅ 3 unset false))) by (simpl; lia).
  split; [exact ones_seeder_nonneg|]. split; [exact Hn|].
  exact (proj2 (proj2 (C9_factors_stay_nonneg 0 (example_state ∅ 3 unset false)
                         ones_seeder_nonneg)) Hn).
Defined.

(** ** The target and the prior-rate matrices are read-only *)

Lemma prologue_mem {Sd : Type} (st : State Sd) : mem (prologue st) = mem (_set_params st).
Proof. reflexivity. Qed.

Lemma prologue_config {Sd : Type} (st : State Sd) :
  same_config (obj (_set_params st)) (obj (prologue st)).
Proof. unfold same_config. simpl. tauto. Qed.

Lemma _set_params_V {Sd : Type} (st : State Sd) : V (obj (_set_params st)) = V (obj st).
Proof. reflexivity. Qed.

Lemma finish_config {Sd : Type} (st : State Sd) (l : Q * Q * Z) :
  same_config (obj st) (obj (finish st l)) /\ mem (finish st l) = mem st.
Proof. destruct l as [[p c] i]. unfold same_config. simpl. tauto. Qed.

(** C10.  Whatever the configuration, [factorize] ends (it returns, or
    raises when there is no run) in a state where the attribute [V] is
    the reference it was and the matrix behind it has the entries it
    had; [alpha] and [beta] are what [_set_params] made them, and every
    object that existed after [_set_params] is unchanged.  The target
    is assumed to exist in the store. *)
Theorem C10_inputs_not_mutated {Sd : Type} `{SeederOk Sd} (fuel : nat) (st : State Sd) :
  (V (obj st) < length (mem st))%nat ->
  exists st',
    (factorize (S fuel) st = Done st'
     \/ factorize (S fuel) st = Raised UnboundLocalError st')
    /\ V (obj st') = V (obj st)
    /\ deref (mem st') (V (obj st')) = deref (mem st) (V (obj st))
    /\ alpha (obj st') = alpha (obj (_set_params st))
    /\ beta (obj st') = beta (obj (_set_params st))
    /\ forall l, (l < length (mem (_set_params st)))%nat ->
                 mem st' !! l = mem (_set_params st) !! l.
Proof.
  intros HV.
  assert (Hend : exists st',
             (factorize (S fuel) st = Done st'
              \/ factorize (S fuel) st = Raised UnboundLocalError st')
             /\ same_config (obj (_set_params st)) (obj st')
             /\ mem (_set_params st) `prefix_of` mem st').
  { rewrite factorize_eq.
    destruct (Z.to_nat (n_run (obj st))) as [|n'].
    - exists (prologue st). split; [right; reflexivity|].
      split; [apply prologue_config|rewrite prologue_mem; reflexivity].
    - eexists. split; [left; reflexivity|].
      destruct (finish_config (Nat.iter (S n') run_step (prologue st))
                  (run_locals (Nat.iter n' run_step (prologue st)))) as [C M].
      split.
      + eapply same_config_trans; [apply prologue_config|].
        eapply same_config_trans; [apply (iter_config (S n'))|exact C].
      + rewrite M, <- prologue_mem. apply iter_extends. }
  destruct Hend as (st' & Hout & C & P).
  exists st'. split; [exact Hout|].
  destruct C as (CV & _ & _ & _ & _ & _ & Ca & Cb & _).
  rewrite _set_params_V in CV.
  split; [congruence|]. split; [|split; [congruence|split; [congruence|]]].
  - rewrite <- CV. apply deref_prefix; [|exact HV].
    etransitivity; [apply _set_params_extends|exact P].
  - intros l Hl. symmetry. apply prefix_lookup_lt; assumption.
Qed.

(** C10 on the small instance with two runs. *)
Lemma C10_inputs_not_mutated_witness :
  (V (obj (example_state ∅ 2 unset false)) < length (mem (example_state ∅ 2 unset false)))%nat
  /\ exists st',
      (factorize 1 (example_state ∅ 2 unset false) = Done st'
       \/ factorize 1 (example_state ∅ 2 unset false) = Raised UnboundLocalError st')
      /\ deref (mem st') (V (obj st')) = [[1; 2]; [3; 4]]%Q.
Proof.
  assert (HV : (V (obj (example_state ∅ 2 unset false))
                < length (mem (example_state ∅ 2 unset false)))%nat) by (simpl; lia).
  split; [exact HV|].
  destruct (C10_inputs_not_mutated 0 (example_state ∅ 2 unset false) HV)
    as (st' & Hout & _ & HD & _).
  exists st'. split; [exact Hout|exact HD].
Defined.

(** ** Tracking *)

Lemma _set_params_tracker {Sd : Type} (st : State Sd) :
  tracker (obj (_set_params st))
  = if track_requested (obj st) && (1 <? n_run (obj st)) then Some [] else None.
Proof. reflexivity. Qed.

(** What the end of a run does when a tracker is present. *)
Lemma end_run_snapshot {Sd : Type} (st : State Sd) (c : Q) (t : list Mf_track) :
  tracker (obj st) = Some t ->
  (W (obj st) < length (mem st))%nat -> (H (obj st) < length (mem st))%nat ->
  tracker (obj (end_run st c))
  = Some (t ++ [mkTrack (length (mem st)) (S (length (mem st)))])
  /\ length (mem (end_run st c)) = S (S (length (mem st)))
  /\ deref (mem (end_run st c)) (length (mem st)) = deref (mem st) (W (obj st))
  /\ deref (mem (end_run st c)) (S (length (mem st))) = deref (mem st) (H (obj st)).
Proof.
  intros Ht LW LH.
  assert (E : tracker (obj (end_run st c))
              = Some (t ++ [mkTrack (length (mem st)) (S (length (mem st)))])
              /\ mem (end_run st c)
                 = (mem st ++ [deref (mem st) (W (obj st))])
                     ++ [deref (mem st ++ [deref (mem st) (W (obj st))]) (H (obj st))]).
  { unfold end_run. destruct (callback (obj st)); simpl; rewrite Ht; simpl;
      rewrite length_app; simpl; rewrite Nat.add_1_r; split; reflexivity. }
  destruct E as [E1 E2]. split; [exact E1|]. rewrite E2.
  set (X := deref (mem st) (W (obj st))).
  set (h1 := mem st ++ [X]).
  assert (P1 : mem st `prefix_of` h1) by (apply prefix_app_r; reflexivity).
  assert (L1 : length h1 = S (length (mem st)))
    by (unfold h1; rewrite length_app; simpl; lia).
  split; [rewrite length_app; simpl; lia|]. split.
  - rewrite (deref_prefix h1 (h1 ++ [deref h1 (H (obj st))]) (length (mem st))).
    + exact (deref_alloc X (mem st)).
    + apply prefix_app_r. reflexivity.
    + lia.
  - rewrite <- L1. rewrite (deref_alloc (deref h1 (H (obj st))) h1 : deref (h1 ++ [_]) (length h1) = _).
    apply deref_prefix; assumption.
Qed.

Lemma end_run_untracked {Sd : Type} (st : State Sd) (c : Q) :
  tracker (obj st) = None ->
  tracker (obj (end_run st c)) = None /\ mem (end_run st c) = mem st.
Proof.
  intros Ht. unfold end_run. destruct (callback (obj st)); simpl; rewrite Ht; auto.
Qed.

Lemma snapshot_locs_snoc (t : list Mf_track) (s : Mf_track) :
  snapshot_locs (t ++ [s]) = snapshot_locs t ++ [track_W s; track_H s].
Proof. unfold snapshot_locs. rewrite flat_map_app. simpl. reflexivity. Qed.

Section TrackingFacts.
Context {Sd : Type} `{SeederOk Sd}.

Lemma seeded_tracker (st : State Sd) : tracker (obj (seeded st)) = tracker (obj st).
Proof.
  unfold seeded, start_run.
  destruct (initialize _ _ _ _ _) as [[[lw lh] h] s]. reflexivity.
Qed.

(** A run with a tracker adds one snapshot, made of two new objects
    that hold the entries of the run's factors. *)
Lemma run_step_snapshot (st : State Sd) (t : list Mf_track) :
  tracker (obj st) = Some t ->
  exists snap,
    tracker (obj (run_step st)) = Some (t ++ [snap])
    /\ track_W snap = length (mem (seeded st))
    /\ track_H snap = S (length (mem (seeded st)))
    /\ length (mem (run_step st)) = S (S (length (mem (seeded st))))
    /\ (W (obj (run_step st)) < length (mem (seeded st)))%nat
    /\ (H (obj (run_step st)) < length (mem (seeded st)))%nat
    /\ deref (mem (run_step st)) (track_W snap)
       = deref (mem (run_step st)) (W (obj (run_step st)))
    /\ deref (mem (run_step st)) (track_H snap)
       = deref (mem (run_step st)) (H (obj (run_step st))).
Proof.
  intros Ht.
  destruct (seeded_valid st) as [LW LH].
  destruct (end_run_snapshot (seeded st) (objective (seeded st)) t
              (eq_trans (seeded_tracker st) Ht) LW LH) as (Et & El & DW & DH).
  destruct (run_step_factors st) as (EW & EH & FW & FH).
  fold (run_step st) in Et, El, DW, DH.
  exists (mkTrack (length (mem (seeded st))) (S (length (mem (seeded st))))).
  simpl. rewrite EW, EH, FW, FH. repeat split; assumption.
Qed.

Lemma run_step_tracked (n : nat) (st : State Sd) :
  tracked n st -> tracked (S n) (run_step st).
Proof.
  intros (t & Ht & Hlen & Hnd & Hall).
  pose proof (prefix_length _ _ (seeded_extends st)) as Hgrow.
  destruct (run_step_snapshot st t Ht) as (snap & Et & SW & SH & El & _).
  exists (t ++ [snap]).
  split; [exact Et|]. split; [rewrite length_app; simpl; lia|].
  rewrite snapshot_locs_snoc, SW, SH. split.
  - apply NoDup_app. split; [exact Hnd|]. split.
    + intros l Hl Hin. rewrite Forall_forall in Hall. specialize (Hall l Hl).
      apply elem_of_cons in Hin as [->|Hin]; [lia|].
      apply elem_of_cons in Hin as [->|Hin]; [lia|].
      apply elem_of_nil in Hin. exact Hin.
    + apply NoDup_cons. split.
      * intros Hin. apply elem_of_cons in Hin as [E|Hin]; [lia|].
        apply elem_of_nil in Hin. exact Hin.
      * apply NoDup_singleton.
  - apply Forall_app. split.
    + eapply Forall_impl; [exact Hall|]. intros l Hl. simpl in Hl. lia.
    + repeat constructor; lia.
Qed.

Lemma iter_tracked (n : nat) (st : State Sd) :
  tracked 0 st -> tracked n (Nat.iter n run_step st).
Proof.
  intros Hstart. induction n as [|n IH]; [exact Hstart|].
  rewrite Nat.iter_succ. apply run_step_tracked. exact IH.
Qed.

Lemma prologue_tracked (st : State Sd) :
  track_requested (obj st) = true -> 1 < n_run (obj st) -> tracked 0 (prologue st).
Proof.
  intros Ht Hn. exists []. unfold snapshot_locs. simpl.
  fold (track_requested (obj st)). rewrite Ht.
  destruct (Z.ltb_spec 1 (n_run (obj st))); [|lia].
  simpl. repeat split; constructor.
Qed.
End TrackingFacts.

(** C6.  [_set_params] creates the tracker exactly when the option
    [track] is true-valued and [n_run > 1].  A run that finds a tracker
    ends, after its sweeps, by appending one snapshot whose two
    references are new objects (not among the objects existing before,
    hence neither the live W or H nor part of an earlier snapshot, and
    different from each other) holding the entries of the live W and H;
    a run without tracker leaves it absent.  With [track] set and
    [n_run = 3], [factorize] returns with exactly three snapshots at
    six pairwise different addresses. *)
Theorem C6_tracking {Sd : Type} `{SeederOk Sd} (fuel : nat) (st : State Sd) :
  (is_Some (tracker (obj (_set_params st)))
   <-> track_requested (obj st) = true /\ 1 < n_run (obj st))
  /\ (forall (s : State Sd) (t : list Mf_track),
         tracker (obj s) = Some t ->
         exists s' l snap,
           one_run (S fuel) s = Some (s', l)
           /\ tracker (obj s') = Some (t ++ [snap])
           /\ (length (mem (seeded s)) <= track_W snap)%nat
           /\ (length (mem (seeded s)) <= track_H snap)%nat
           /\ track_W snap <> track_H snap
           /\ track_W snap <> W (obj s') /\ track_W snap <> H (obj s')
           /\ track_H snap <> W (obj s') /\ track_H snap <> H (obj s')
           /\ deref (mem s') (track_W snap) = deref (mem s') (W (obj s'))
           /\ deref (mem s') (track_H snap) = deref (mem s') (H (obj s')))
  /\ (forall s : State Sd,
         tracker (obj s) = None ->
         exists s' l, one_run (S fuel) s = Some (s', l) /\ tracker (obj s') = None)
  /\ (track_requested (obj st) = true -> n_run (obj st) = 3 ->
      exists st' a b c,
        factorize (S fuel) st = Done st'
        /\ tracker (obj st') = Some [a; b; c]
        /\ NoDup (snapshot_locs [a; b; c])).
Proof.
  split; [|split; [|split]].
  - rewrite _set_params_tracker.
    destruct (track_requested (obj st)); simpl.
    + destruct (Z.ltb_spec 1 (n_run (obj st))); split.
      * auto.
      * intros _. eexists. reflexivity.
      * intros [x E]. discriminate.
      * intros [_ L]. lia.
    + split; [intros [x E]; discriminate|intros [E _]; discriminate].
  - intros s t Ht. rewrite one_run_step.
    destruct (run_step_snapshot s t Ht) as (snap & Et & SW & SH & El & LW & LH & DW & DH).
    exists (run_step s), (run_locals s), snap.
    split; [reflexivity|]. split; [exact Et|].
    rewrite SW, SH in *. repeat split; try lia; assumption.
  - intros s Ht. rewrite one_run_step. exists (run_step s), (run_locals s).
    split; [reflexivity|]. unfold run_step.
    apply end_run_untracked. rewrite seeded_tracker. exact Ht.
  - intros Ht Hn. rewrite factorize_eq, Hn. change (Z.to_nat 3) with 3%nat.
    assert (T : tracked 3 (Nat.iter 3 run_step (prologue st))).
    { apply iter_tracked, prologue_tracked; [exact Ht|lia]. }
    destruct T as (t & Et & Hlen & Hnd & _).
    destruct t as [|a [|b [|c [|d t]]]]; try discriminate.
    eexists. exists a, b, c. split; [reflexivity|].
    destruct (run_locals _) as [[p q] i]. split; [exact Et|exact Hnd].
Qed.

(** C6 on the small instance: three runs with [track] set. *)
Lemma C6_tracking_witness :
  track_requested (obj (example_state {[ "track" := VBool true ]} 3 unset false)) = true
  /\ n_run (obj (example_state {[ "track" := VBool true ]} 3 unset false)) = 3
  /\ exists st' a b c,
      factorize 1 (example_state {[ "track" := VBool true ]} 3 unset false) = Done st'
      /\ tracker (obj st') = Some [a; b; c]
      /\ NoDup (snapshot_locs [a; b; c]).
Proof.
  assert (Ht : track_requested
                 (obj (example_state {[ "track" := VBool true ]} 3 unset false)) = true)
    by reflexivity.
  assert (Hn : n_run (obj (example_state {[ "track" := VBool true ]} 3 unset false)) = 3)
    by reflexivity.
  split; [exact Ht|]. split; [exact Hn|].
  exact (proj2 (proj2 (proj2
           (C6_tracking 0 (example_state {[ "track" := VBool true ]} 3 unset false))))
           Ht Hn).
Defined.

(** ** No validation of the options *)

Lemma get_present (o : gmap string value) (key : string) (d x : value) :
  o !! key = Some x -> get o key d = x.
Proof. intros E. unfold get. rewrite E. reflexivity. Qed.




(** ** The objective *)

Lemma nth_map_seq {A : Type} (f : nat -> A) (d : A) (c j : nat) :
  (j < c)%nat -> nth j (map f (seq 0 c)) d = f j.
Proof.
  intros Hj.
  rewrite (nth_indep (map f (seq 0 c)) d (f O))
    by (rewrite length_map, length_seq; exact Hj).
  rewrite (map_nth f), seq_nth by exact Hj. reflexivity.
Qed.

Lemma list_as_map {A : Type} (d : A) (l : list A) :
  l = map (fun i => nth i l d) (seq 0 (length l)).
Proof.
  apply (nth_ext _ _ d d).
  - rewrite length_map, length_seq. reflexivity.
  - intros i Hi. symmetry. apply (nth_map_seq (fun i => nth i l d)). exact Hi.
Qed.

Lemma has_shape_table (n c : nat) (X : Matrix) :
  has_shape n c X -> X = table n c (entry X).
Proof.
  intros [Hn Hc]. unfold table, entry. subst n.
  rewrite (list_as_map [] X) at 1.
  apply map_ext_in. intros i Hi. apply in_seq in Hi.
  assert (Hr : length (nth i X []) = c).
  { rewrite Forall_forall in Hc. apply Hc.
    apply list_elem_of_In, nth_In. lia. }
  rewrite (list_as_map 0%Q (nth i X [])) at 1. rewrite Hr. reflexivity.
Qed.

Lemma zip_with_map_same {A B C D : Type} (f : B -> C -> D) (g : A -> B) (h : A -> C)
      (l : list A) :
  zip_with f (map g l) (map h l) = map (fun a => f (g a) (h a)) l.
Proof. induction l as [|a l IH]; simpl; [reflexivity|]. rewrite IH. reflexivity. Qed.

Lemma ncols_table (r c : nat) (h : nat -> nat -> Q) :
  (0 < r)%nat -> ncols (table r c h) = c.
Proof.
  intros Hr. destruct r as [|r]; [lia|].
  unfold table. simpl. rewrite length_map, length_seq. reflexivity.
Qed.

Lemma column_table (r c j : nat) (h : nat -> nat -> Q) :
  (j < c)%nat -> column j (table r c h) = map (fun l => h l j) (seq 0 r).
Proof.
  intros Hj. unfold column, table. rewrite map_map.
  apply map_ext. intros l. apply nth_map_seq. exact Hj.
Qed.

Lemma dot_table (n c r : nat) (w h : nat -> nat -> Q) :
  (0 < r)%nat ->
  dot (table n r w) (table r c h)
  = table n c (fun i j => qsum (map (fun l => w i l * h l j)%Q (seq 0 r))).
Proof.
  intros Hr. unfold dot. rewrite ncols_table by exact Hr.
  set (Y := table r c h). unfold table. rewrite map_map.
  apply map_ext. intros i. apply map_ext_in. intros j Hj. apply in_seq in Hj.
  unfold Y. rewrite column_table by lia. unfold inner.
  rewrite zip_with_map_same. reflexivity.
Qed.

Lemma msub_table (n c : nat) (f g : nat -> nat -> Q) :
  msub (table n c f) (table n c g) = table n c (fun i j => f i j - g i j)%Q.
Proof.
  unfold msub, table. rewrite zip_with_map_same.
  apply map_ext. intros i. apply zip_with_map_same.
Qed.

Lemma elop_table {A : Type} (n c : nat) (f : nat -> nat -> Q) (y : A) (op : Q -> A -> Q) :
  elop (table n c f) y op = table n c (fun i j => op (f i j) y).
Proof.
  unfold elop, table. rewrite map_map.
  apply map_ext. intros i. apply map_map.
Qed.

Lemma msum_table (n c : nat) (f : nat -> nat -> Q) :
  msum (table n c f) = qsum (map (fun i => qsum (map (fun j => f i j) (seq 0 c))) (seq 0 n)).
Proof. unfold msum, table. rewrite map_map. reflexivity. Qed.

(** The composition of helpers in [objective] computes the spec's
    formula on matrices of fitting shapes. *)
Lemma objective_formula (n c r : nat) (Vm Wm Hm : Matrix) :
  (0 < r)%nat -> has_shape n c Vm -> has_shape n r Wm -> has_shape r c Hm ->
  msum (elop (msub Vm (dot Wm Hm)) 2 pow) = sum_sq_residual n c r Vm Wm Hm.
Proof.
  intros Hr HV HW HH.
  transitivity (msum (elop (msub (table n c (entry Vm))
                                 (dot (table n r (entry Wm)) (table r c (entry Hm))))
                           2 pow)).
  { rewrite <- !has_shape_table by assumption. reflexivity. }
  rewrite dot_table by exact Hr.
  rewrite msub_table, elop_table, msum_table. reflexivity.
Qed.

(** C8.  A run starts by storing the seeder's two references in [W] and
    [H] and setting [pobj] and [cobj] both to [objective()], with
    [iter = 0]; and on a target of shape n x c with factors of shapes
    n x r and r x c (r > 0) [objective()] is the sum over all positions
    of the squared entry of V - W·H. *)
Theorem C8_initial_objective {Sd : Type} `{Seeder Sd} (st : State Sd) :
  start_run st = (seeded st, objective (seeded st), objective (seeded st), 0)
  /\ (forall lw lh h sd,
         initialize (seed st) (mem st) (V (obj st)) (rank (obj st)) (options (obj st))
         = (lw, lh, h, sd) ->
         W (obj (seeded st)) = lw /\ H (obj (seeded st)) = lh /\ mem (seeded st) = h)
  /\ (forall (s : State Sd) (n c r : nat),
         (0 < r)%nat ->
         has_shape n c (deref (mem s) (V (obj s))) ->
         has_shape n r (deref (mem s) (W (obj s))) ->
         has_shape r c (deref (mem s) (H (obj s))) ->
         objective s
         = sum_sq_residual n c r (deref (mem s) (V (obj s)))
                           (deref (mem s) (W (obj s))) (deref (mem s) (H (obj s)))).
Proof.
  split; [apply start_run_eq|]. split.
  - intros lw lh h sd E. rewrite (seeded_eq st _ _ _ _ E). simpl. auto.
  - intros s n c r Hr HV HW HH. unfold objective. apply objective_formula; assumption.
Qed.

(** C8 on the small instance: the residual is [[0, 1], [2, 3]] and both
    objectives start at 14. *)
Lemma C8_initial_objective_witness :
  start_run (example_state ∅ 1 unset false)
  = (seeded (example_state ∅ 1 unset false), 14%Q, 14%Q, 0)
  /\ sum_sq_residual 2 2 1 [[1; 2]; [3; 4]]%Q [[1]; [1]]%Q [[1; 1]]%Q = 14%Q.
Proof.
  destruct (C8_initial_objective (example_state ∅ 1 unset false)) as (E & _ & F).
  assert (EV : deref (mem (seeded (example_state ∅ 1 unset false)))
                     (V (obj (seeded (example_state ∅ 1 unset false))))
               = [[1; 2]; [3; 4]]%Q) by (vm_compute; reflexivity).
  assert (EW : deref (mem (seeded (example_state ∅ 1 unset false)))
                     (W (obj (seeded (example_state ∅ 1 unset false))))
               = [[1]; [1]]%Q) by (vm_compute; reflexivity).
  assert (EH : deref (mem (seeded (example_state ∅ 1 unset false)))
                     (H (obj (seeded (example_state ∅ 1 unset false))))
               = [[1; 1]]%Q) by (vm_compute; reflexivity).
  assert (EO : objective (seeded (example_state ∅ 1 unset false)) = 14%Q)
    by (vm_compute; reflexivity).
  specialize (F (seeded (example_state ∅ 1 unset false)) 2%nat 2%nat 1%nat).
  rewrite EV, EW, EH, EO in F. rewrite EO in E.
  split; [exact E|]. symmetry. apply F.
  - lia.
  - split; [reflexivity|]. repeat constructor.
  - split; [reflexivity|]. repeat constructor.
  - split; [reflexivity|]. repeat constructor.
Defined.

(** * Further properties of the loop *)

Section LoopStable.
Context {St N : Type} `{Num N}.
Variable attrs : St -> Stopping N.
Variable update : St -> St.
Variable objective : St -> N.
(** [update] does not reconfigure the stopping parameters. *)
Hypothesis attrs_update : forall s, attrs (update s) = attrs s.

Lemma one_mod_nonzero (tc : Z) : 2 <= Z.abs tc -> (1 `mod` tc =? 0) = false.
Proof.
  intros Ht. apply Z.eqb_neq. intros E.
  apply Z.mod_divide in E; [|lia].
  apply Z.divide_1_r in E. lia.
Qed.

(** A sweep on which the objective is not recomputed leaves
    [cobj = pobj]; unless that value is a NaN, [cobj >= pobj] is true
    and the guard fails right after the sweep. *)
Lemma guard_after_skipped (s : St) (pobj cobj : N) (iter tc : Z) :
  0 <= iter -> test_conv (attrs s) = Some tc -> tc <> 0 -> iter `mod` tc <> 0 ->
  leb cobj cobj = true ->
  guard attrs (sweep attrs update objective (s, pobj, cobj, iter)) = false.
Proof.
  intros Hi Et Htc Hm Hc. unfold sweep. rewrite attrs_update, Et.
  assert (E1 : truthy_int (Some tc) = true)
    by (simpl; destruct (Z.eqb_spec tc 0); [contradiction|reflexivity]).
  assert (E2 : (iter `mod` tc =? 0) = false) by (apply Z.eqb_neq; exact Hm).
  rewrite E1, E2. simpl.
  apply guard_not_lower; [lia|exact Hc].
Qed.

(** X2.  When [test_conv] is 2 or more in absolute value and the
    objective computed by the first sweep is not a NaN (it compares
    [<=] to itself), the loop started at [iter = 0] ends after at most
    two sweeps: the second sweep keeps the old objective, and the guard
    reads an unchanged objective as no improvement. *)
Theorem X2_test_conv_two_sweeps (fuel : nat) (s : St) (pobj cobj : N) (tc : Z) :
  test_conv (attrs s) = Some tc -> 2 <= Z.abs tc ->
  leb (objective (update s)) (objective (update s)) = true ->
  let body := sweep attrs update objective in
  let f0 := (s, pobj, cobj, 0) in
  exists f, sweeps attrs update objective (2 + fuel) f0 = Some f
            /\ (f = f0 \/ f = body f0 \/ f = body (body f0))
            /\ 0 <= frame_iter f <= 2.
Proof.
  intros Et Ht Hc body f0. change (2 + fuel)%nat with (S (S fuel)).
  destruct (guard attrs f0) eqn:G0.
  - rewrite sweeps_continue by exact G0.
    destruct (guard attrs (sweep attrs update objective f0)) eqn:G1.
    + rewrite sweeps_continue by exact G1.
      exists (body (body f0)). split; [|split; [auto|simpl; lia]].
      apply sweeps_stop. unfold body.
      remember (sweep attrs update objective f0) as f1 eqn:E1.
      destruct f1 as [[[s1 p1] c1] i1].
      unfold f0, sweep in E1. injection E1 as Es Ep Ec Ei. subst s1 i1.
      assert (Ec1 : c1 = objective (update s)).
      { rewrite Ec, attrs_update, Et. rewrite orb_true_r. reflexivity. }
      apply (guard_after_skipped _ _ _ (0 + 1) tc); [lia| |lia| |].
      * rewrite attrs_update. exact Et.
      * intros E. pose proof (one_mod_nonzero tc Ht) as Nz.
        apply Z.eqb_neq in Nz. contradiction.
      * rewrite Ec1. exact Hc.
    + exists (body f0). split; [apply sweeps_stop; exact G1|].
      split; [auto|simpl; lia].
  - exists f0. split; [apply sweeps_stop; exact G0|]. split; [auto|simpl; lia].
Qed.

(** The frames reached in a range of iteration counts. *)
Lemma max_iters_bound_aux (mi : Z) (d : nat) :
  1 <= mi ->
  forall (fuel : nat) (s : St) (pobj cobj : N) (iter : Z),
    max_iters (attrs s) = Some mi ->
    0 <= iter <= mi + 1 -> mi + 1 - iter <= Z.of_nat d ->
    exists f, sweeps attrs update objective (d + fuel) (s, pobj, cobj, iter) = Some f
              /\ iter <= frame_iter f <= mi + 1.
Proof.
  intros Hmi. induction d as [|d IH]; intros fuel s pobj cobj iter Em Hi Hd.
  - exists (s, pobj, cobj, iter). split; [|simpl; lia].
    apply sweeps_stop. unfold guard, _is_satisfied. rewrite Em. simpl.
    destruct (Z.eqb_spec mi 0); [lia|]. destruct (Z.ltb_spec mi iter); [|lia].
    reflexivity.
  - destruct (guard attrs (s, pobj, cobj, iter)) eqn:G.
    + change (S d + fuel)%nat with (S (d + fuel)).
      rewrite sweeps_continue by exact G.
      assert (Hle : iter <= mi).
      { unfold guard, _is_satisfied in G. rewrite Em in G. simpl in G.
        destruct (Z.eqb_spec mi 0); [lia|]. simpl in G.
        destruct (Z.ltb_spec mi iter); [discriminate|lia]. }
      unfold sweep.
      destruct (IH fuel (update s) cobj
                  (if negb (truthy_int (test_conv (attrs (update s))))
                      || match test_conv (attrs (update s)) with
                         | Some tc => iter `mod` tc =? 0
                         | None => false
                         end
                   then objective (update s) else cobj) (iter + 1))
        as (f & Ef & Hf).
      * rewrite attrs_update. exact Em.
      * lia.
      * lia.
      * exists f. split; [exact Ef|lia].
    + exists (s, pobj, cobj, iter). split; [apply sweeps_stop; exact G|simpl; lia].
Qed.

(** X3.  A positive [max_iters] bounds the loop: started at [iter = 0] it
    ends within [max_iters + 1] sweeps, whatever [update] and
    [objective] do. *)
Theorem X3_max_iters_bounds_the_loop (fuel : nat) (s : St) (pobj cobj : N) (mi : Z) :
  max_iters (attrs s) = Some mi -> 1 <= mi ->
  exists f, sweeps attrs update objective (Z.to_nat (mi + 1) + fuel) (s, pobj, cobj, 0) = Some f
            /\ 0 <= frame_iter f <= mi + 1.
Proof.
  intros Em Hmi.
  apply (max_iters_bound_aux mi (Z.to_nat (mi + 1)) Hmi fuel s pobj cobj 0 Em); lia.
Qed.
End LoopStable.

(** The two bounds on the loop of a scripted object. *)
Lemma X2_test_conv_two_sweeps_witness :
  (forall s : Scripted float, s_stop (scripted_update s) = s_stop s)
  /\ 2 <= Z.abs 2
  /\ PrimFloat.leb 80 80 = true
  /\ exists f,
      scripted_run (fun i => match i with O => 100 | 1%nat => 80 | _ => 60 end)%float
                   (mkStopping None None (Some 2)) 2
      = Some f /\ 0 <= frame_iter f <= 2.
Proof.
  assert (Ha : forall s : Scripted float, s_stop (scripted_update s) = s_stop s)
    by reflexivity.
  assert (Ht : 2 <= Z.abs 2) by (simpl; lia).
  assert (Hc : PrimFloat.leb 80 80 = true) by reflexivity.
  split; [exact Ha|]. split; [exact Ht|]. split; [exact Hc|].
  pose proof (X2_test_conv_two_sweeps (N := float) s_stop scripted_update
                (scripted_objective
                   (fun i => match i with O => 100 | 1%nat => 80 | _ => 60 end)%float)
                Ha 0 (mkScripted (mkStopping None None (Some 2)) O)
                100%float 100%float 2 eq_refl Ht) as X.
  destruct (X Hc) as (f & E & _ & B).
  exists f. split; [exact E|exact B].
Defined.

Lemma X3_max_iters_bounds_the_loop_witness :
  (forall s : Scripted Q, s_stop (scripted_update s) = s_stop s)
  /\ 1 <= 5
  /\ exists f,
      scripted_run (fun i => (- inject_Z (Z.of_nat i))%Q) (mkStopping (Some 5) None None) 6
      = Some f /\ 0 <= frame_iter f <= 5 + 1.
Proof.
  assert (Ha : forall s : Scripted Q, s_stop (scripted_update s) = s_stop s) by reflexivity.
  assert (Hm : 1 <= 5) by lia.
  split; [exact Ha|]. split; [exact Hm|].
  exact (X3_max_iters_bounds_the_loop s_stop scripted_update
           (scripted_objective (fun i => (- inject_Z (Z.of_nat i))%Q)) Ha 0
           (mkScripted (mkStopping (Some 5) None None) O) 0%Q 0%Q 5 eq_refl Hm).
Defined.

(** On a strictly decreasing objective with only [max_iters = n] set,
    the frames of the loop from the first sweep on. *)
Lemma scripted_decreasing_aux (traj : nat -> Q) (n : nat) :
  (forall i, (traj (S i) < traj i)%Q) -> (1 <= n)%nat ->
  forall (d j fuel : nat),
    (S j + d = S n)%nat ->
    sweeps s_stop scripted_update (scripted_objective traj) (d + fuel)
           (mkScripted (mkStopping (Some (Z.of_nat n)) None None) (S j),
            traj j, traj (S j), Z.of_nat (S j))
    = Some (mkScripted (mkStopping (Some (Z.of_nat n)) None None) (S n),
            traj n, traj (S n), Z.of_nat (S n)).
Proof.
  intros Hdec Hn. induction d as [|d IH]; intros j fuel Hj.
  - assert (j = n) by lia. subst j. apply sweeps_stop.
    rewrite (scripted_guard_decrease (Z.of_nat n)) by (reflexivity || apply Hdec).
    destruct (Z.eqb_spec (Z.of_nat n) 0); [lia|].
    destruct (Z.ltb_spec (Z.of_nat n) (Z.of_nat (S n))); [reflexivity|lia].
  - change (S d + fuel)%nat with (S (d + fuel)).
    rewrite sweeps_continue.
    + unfold sweep, scripted_update, scripted_objective. cbn [s_stop s_done test_conv].
      cbn [truthy_int truthy negb orb].
      replace (Z.of_nat (S j) + 1) with (Z.of_nat (S (S j))) by lia.
      apply IH. lia.
    + rewrite (scripted_guard_decrease (Z.of_nat n)) by (reflexivity || apply Hdec).
      destruct (Z.ltb_spec (Z.of_nat n) (Z.of_nat (S j))); [lia|].
      rewrite andb_false_r. reflexivity.
Qed.

(** X4.  On a strictly decreasing objective with only [max_iters = n >= 1]
    set, the loop performs exactly [n + 1] sweeps. *)
Theorem X4_decreasing_runs_max_iters_plus_one (traj : nat -> Q) (n fuel : nat) :
  (forall i, (traj (S i) < traj i)%Q) -> (1 <= n)%nat ->
  scripted_run traj (mkStopping (Some (Z.of_nat n)) None None) (S n + fuel)
  = Some (mkScripted (mkStopping (Some (Z.of_nat n)) None None) (S n),
          traj n, traj (S n), Z.of_nat (S n)).
Proof.
  intros Hdec Hn. unfold scripted_run.
  change (S n + fuel)%nat with (S (n + fuel)).
  rewrite sweeps_continue by (apply guard_first; simpl; lia).
  unfold sweep at 1, scripted_update, scripted_objective. cbn [s_stop s_done test_conv].
  cbn [truthy_int truthy negb orb].
  apply (scripted_decreasing_aux traj n Hdec Hn n O fuel). lia.
Qed.

Lemma X4_decreasing_runs_max_iters_plus_one_witness :
  (forall i, (- inject_Z (Z.of_nat (S i)) < - inject_Z (Z.of_nat i))%Q)
  /\ (1 <= 3)%nat
  /\ scripted_run (fun i => (- inject_Z (Z.of_nat i))%Q)
                  (mkStopping (Some (Z.of_nat 3)) None None) 4
     = Some (mkScripted (mkStopping (Some (Z.of_nat 3)) None None) 4,
             (- inject_Z (Z.of_nat 3))%Q, (- inject_Z (Z.of_nat 4))%Q, Z.of_nat 4).
Proof.
  assert (Hd : forall i, (- inject_Z (Z.of_nat (S i)) < - inject_Z (Z.of_nat i))%Q).
  { intros i. unfold Qlt. simpl. lia. }
  assert (Hn : (1 <= 3)%nat) by lia.
  split; [exact Hd|]. split; [exact Hn|].
  exact (X4_decreasing_runs_max_iters_plus_one
           (fun i => (- inject_Z (Z.of_nat i))%Q) 3 0 Hd Hn).
Defined.

(** * Further properties of [factorize] and [objective] *)

(** X5.  With [n_run <= 0] the [for] loop has no iteration and the
    assignment [self.n_iter = iter] reads an unbound local:
    [factorize] raises, whatever the fuel, after [_set_params] and the
    assignment of [v]; the seeder has not been called and neither
    [n_iter] nor [final_obj] nor the factors have been assigned. *)
Theorem X5_no_run_raises {Sd : Type} `{Seeder Sd} (fuel : nat) (st : State Sd) :
  n_run (obj st) <= 0 ->
  factorize fuel st = Raised UnboundLocalError (prologue st)
  /\ seed (prologue st) = seed st
  /\ W (obj (prologue st)) = W (obj st) /\ H (obj (prologue st)) = H (obj st)
  /\ n_iter (obj (prologue st)) = n_iter (obj st)
  /\ final_obj (obj (prologue st)) = final_obj (obj st)
  /\ calls (prologue st) = calls st.
Proof.
  intros Hn. split; [|repeat split].
  unfold factorize. rewrite prologue_n_run.
  replace (Z.to_nat (n_run (obj st))) with O by lia. reflexivity.
Qed.

Lemma X5_no_run_raises_witness :
  n_run (obj (example_state ∅ 0 unset false)) <= 0
  /\ factorize 0 (example_state ∅ 0 unset false)
     = Raised UnboundLocalError (prologue (example_state ∅ 0 unset false)).
Proof.
  assert (Hn : n_run (obj (example_state ∅ 0 unset false)) <= 0) by (simpl; lia).
  split; [exact Hn|].
  exact (proj1 (X5_no_run_raises 0 (example_state ∅ 0 unset false) Hn)).
Defined.

Lemma guard_negative_max_iters {St N : Type} `{Num N} (attrs : St -> Stopping N) (s : St)
      (pobj cobj : N) (mi : Z) :
  max_iters (attrs s) = Some mi -> mi < 0 -> guard attrs (s, pobj, cobj, 0) = false.
Proof.
  intros Em Hmi. unfold guard, _is_satisfied. rewrite Em. simpl.
  destruct (Z.eqb_spec mi 0); [lia|]. destruct (Z.ltb_spec mi 0); [|lia]. reflexivity.
Qed.

(** X6.  A negative [max_iters] stops every run before its first sweep:
    with at least one run [factorize] returns with [n_iter = 0], and
    the loop of each run returns the frame it started from. *)
Theorem X6_negative_max_iters_no_sweep {Sd : Type} `{Seeder Sd} (fuel : nat)
        (st : State Sd) (mi : Z) :
  max_iters (stop (obj st)) = Some mi -> mi < 0 ->
  (forall s : State Sd,
      stop (obj s) = stop (obj st) ->
      sweeps (fun s : State Sd => stop (obj s)) update objective fuel (start_run s)
      = Some (start_run s))
  /\ (1 <= n_run (obj st) ->
      exists st', factorize (S fuel) st = Done st' /\ n_iter (obj st') = Some 0).
Proof.
  intros Em Hmi. split.
  - intros s Es. apply sweeps_stop. rewrite start_run_eq.
    apply (guard_negative_max_iters _ _ _ _ mi); [|exact Hmi].
    destruct (seeded_config s) as (_ & _ & _ & _ & <- & _). rewrite Es. exact Em.
  - intros Hn. rewrite factorize_eq.
    destruct (Z.to_nat (n_run (obj st))) as [|n'] eqn:En; [lia|].
    eexists. split; [reflexivity|].
    unfold run_locals.
    rewrite (guard_negative_max_iters _ _ _ _ mi); [reflexivity| |exact Hmi].
    destruct (seeded_config (Nat.iter n' run_step (prologue st)))
      as (_ & _ & _ & _ & <- & _).
    destruct (iter_config n' (prologue st)) as (_ & _ & _ & _ & <- & _).
    exact Em.
Qed.

Lemma X6_negative_max_iters_no_sweep_witness :
  max_iters (stop (obj (example_state ∅ 2 (mkStopping (Some (-1)) None None) false)))
  = Some (-1)
  /\ -1 < 0
  /\ 1 <= n_run (obj (example_state ∅ 2 (mkStopping (Some (-1)) None None) false))
  /\ exists st',
      factorize 1 (example_state ∅ 2 (mkStopping (Some (-1)) None None) false) = Done st'
      /\ n_iter (obj st') = Some 0.
Proof.
  assert (Hm : -1 < 0) by lia.
  assert (Hn : 1 <= n_run (obj (example_state ∅ 2 (mkStopping (Some (-1)) None None) false)))
    by (simpl; lia).
  split; [reflexivity|]. split; [exact Hm|]. split; [exact Hn|].
  exact (proj2 (X6_negative_max_iters_no_sweep 0
                  (example_state ∅ 2 (mkStopping (Some (-1)) None None) false)
                  (-1) eq_refl Hm) Hn).
Defined.

(** ** Sign and zero of the objective *)

Lemma qsum_nonneg (l : list Q) : Forall (fun x => (0 <= x)%Q) l -> (0 <= qsum l)%Q.
Proof.
  induction 1 as [|x l Hx Hl IH]; simpl; [apply Qle_refl|].
  change (0 + 0 <= x + qsum l)%Q.
  apply Qplus_le_compat; assumption.
Qed.

Lemma pow_2_nonneg (x : Q) : (0 <= pow x 2%Z)%Q.
Proof.
  change (pow x 2) with (x * x)%Q.
  unfold Qle, Qmult. simpl. nia.
Qed.

Lemma msum_squares_nonneg (X : Matrix) : (0 <= msum (elop X 2%Z pow))%Q.
Proof.
  unfold msum, elop. apply qsum_nonneg.
  rewrite !map_map. apply Forall_forall. intros x Hx.
  apply list_elem_of_In, in_map_iff in Hx as (r & <- & _).
  apply qsum_nonneg, Forall_forall. intros y Hy.
  apply list_elem_of_In, in_map_iff in Hy as (z & <- & _).
  apply pow_2_nonneg.
Qed.

(** X7.  The objective is never negative, in any state. *)
Theorem X7_objective_nonneg {Sd : Type} (st : State Sd) : (0 <= objective st)%Q.
Proof. unfold objective. apply msum_squares_nonneg. Qed.

Lemma qsum_zero (l : list Q) : Forall (fun x => (x == 0)%Q) l -> (qsum l == 0)%Q.
Proof.
  induction 1 as [|x l Hx Hl IH]; simpl; [reflexivity|].
  rewrite Hx, IH. reflexivity.
Qed.

Lemma zip_with_diag {A B : Type} (f : A -> A -> B) (l : list A) :
  zip_with f l l = map (fun a => f a a) l.
Proof. induction l as [|a l IH]; simpl; [reflexivity|]. rewrite IH. reflexivity. Qed.

Lemma msum_squares_diag (X : Matrix) : (msum (elop (msub X X) 2%Z pow) == 0)%Q.
Proof.
  unfold msum, elop, msub. rewrite zip_with_diag, !map_map.
  apply qsum_zero, Forall_forall. intros x Hx.
  apply list_elem_of_In, in_map_iff in Hx as (r & <- & _).
  rewrite zip_with_diag, map_map.
  apply qsum_zero, Forall_forall. intros y Hy.
  apply list_elem_of_In, in_map_iff in Hy as (z & <- & _).
  change (pow (z - z) 2) with ((z - z) * (z - z))%Q. ring.
Qed.

(** X8.  When the target holds exactly the entries of W·H, the
    objective is zero. *)
Theorem X8_exact_factorization_zero_objective {Sd : Type} (st : State Sd) :
  deref (mem st) (V (obj st))
  = dot (deref (mem st) (W (obj st))) (deref (mem st) (H (obj st))) ->
  (objective st == 0)%Q.
Proof. intros E. unfold objective. rewrite E. apply msum_squares_diag. Qed.

Lemma X8_exact_factorization_zero_objective_witness :
  deref (mem (seeded exact_example)) (V (obj (seeded exact_example)))
  = dot (deref (mem (seeded exact_example)) (W (obj (seeded exact_example))))
        (deref (mem (seeded exact_example)) (H (obj (seeded exact_example))))
  /\ (objective (seeded exact_example) == 0)%Q.
Proof.
  assert (E : deref (mem (seeded exact_example)) (V (obj (seeded exact_example)))
              = dot (deref (mem (seeded exact_example)) (W (obj (seeded exact_example))))
                    (deref (mem (seeded exact_example)) (H (obj (seeded exact_example)))))
    by (vm_compute; reflexivity).
  split; [exact E|].
  exact (X8_exact_factorization_zero_objective (seeded exact_example) E).
Defined.

(** ** The attribute [v] and the reported objective *)

Lemma multiply_table (n c : nat) (f g : nat -> nat -> Q) :
  multiply (table n c f) (table n c g) = table n c (fun i j => f i j * g i j)%Q.
Proof.
  unfold multiply, table. rewrite zip_with_map_same.
  apply map_ext. intros i. apply zip_with_map_same.
Qed.

Lemma seeded_v {Sd : Type} `{Seeder Sd} (st : State Sd) :
  v (obj (seeded st)) = v (obj st) /\ n_iter (obj (seeded st)) = n_iter (obj st).
Proof.
  unfold seeded, start_run.
  destruct (initialize _ _ _ _ _) as [[[lw lh] h] s]. split; reflexivity.
Qed.

Lemma end_run_v {Sd : Type} (st : State Sd) (c : Q) :
  v (obj (end_run st c)) = v (obj st) /\ n_iter (obj (end_run st c)) = n_iter (obj st).
Proof.
  unfold end_run. destruct (callback (obj st)); simpl;
    destruct (tracker (obj st)); simpl; split; reflexivity.
Qed.

Lemma iter_v {Sd : Type} `{Seeder Sd} (n : nat) (st : State Sd) :
  v (obj (Nat.iter n run_step st)) = v (obj st)
  /\ n_iter (obj (Nat.iter n run_step st)) = n_iter (obj st).
Proof.
  induction n as [|n [IHv IHn]]; [split; reflexivity|].
  rewrite Nat.iter_succ. unfold run_step at 1 3.
  destruct (end_run_v (seeded (Nat.iter n run_step st))
              (objective (seeded (Nat.iter n run_step st)))) as [-> ->].
  destruct (seeded_v (Nat.iter n run_step st)) as [-> ->]. split; assumption.
Qed.

(** How [factorize] ends, for any [n_run]. *)
Lemma factorize_ends {Sd : Type} `{Seeder Sd} (fuel : nat) (st : State Sd) :
  exists st' s,
    (factorize (S fuel) st = Done st' \/ factorize (S fuel) st = Raised UnboundLocalError st')
    /\ s = Nat.iter (Z.to_nat (n_run (obj st))) run_step (prologue st)
    /\ mem st' = mem s /\ calls st' = calls s /\ seed st' = seed s
    /\ v (obj st') = v (obj s) /\ tracker (obj st') = tracker (obj s)
    /\ W (obj st') = W (obj s) /\ H (obj st') = H (obj s) /\ V (obj st') = V (obj s).
Proof.
  rewrite factorize_eq.
  destruct (Z.to_nat (n_run (obj st))) as [|n'].
  - exists (prologue st), (prologue st). split; [right; reflexivity|]. repeat split.
  - eexists. exists (Nat.iter (S n') run_step (prologue st)).
    split; [left; reflexivity|].
    destruct (run_locals (Nat.iter n' run_step (prologue st))) as [[p c] i].
    repeat split.
Qed.

(** X9.  [factorize] leaves in [v] half the sum of the squared entries
    of the target, whether it returns or raises. *)
Theorem X9_v_half_sum_of_squares {Sd : Type} `{Seeder Sd} (fuel : nat) (st : State Sd)
        (n c : nat) :
  (V (obj st) < length (mem st))%nat ->
  has_shape n c (deref (mem st) (V (obj st))) ->
  exists st',
    (factorize (S fuel) st = Done st' \/ factorize (S fuel) st = Raised UnboundLocalError st')
    /\ v (obj st')
       = Some (qsum (map (fun i =>
                 qsum (map (fun j => entry (deref (mem st) (V (obj st))) i j
                                     * entry (deref (mem st) (V (obj st))) i j)
                           (seq 0 c))) (seq 0 n)) / 2)%Q.
Proof.
  intros HV Hs.
  destruct (factorize_ends fuel st) as (st' & s & Hout & -> & _ & _ & _ & Ev & _).
  exists st'. split; [exact Hout|]. rewrite Ev.
  destruct (iter_v (Z.to_nat (n_run (obj st))) (prologue st)) as [-> _].
  unfold prologue. cbn [with_obj obj set_v v].
  rewrite _set_params_V.
  rewrite (deref_prefix (mem st) (mem (_set_params st)) (V (obj st))
             (_set_params_extends st) HV).
  rewrite (has_shape_table n c _ Hs) at 1 2.
  rewrite multiply_table, msum_table. reflexivity.
Qed.

Lemma X9_v_half_sum_of_squares_witness :
  (V (obj (example_state ∅ 1 unset false)) < length (mem (example_state ∅ 1 unset false)))%nat
  /\ has_shape 2 2 (deref (mem (example_state ∅ 1 unset false))
                          (V (obj (example_state ∅ 1 unset false))))
  /\ exists st',
      (factorize 1 (example_state ∅ 1 unset false) = Done st'
       \/ factorize 1 (example_state ∅ 1 unset false) = Raised UnboundLocalError st')
      /\ v (obj st') = Some (30 # 2)%Q.
Proof.
  assert (HV : (V (obj (example_state ∅ 1 unset false))
                < length (mem (example_state ∅ 1 unset false)))%nat) by (simpl; lia).
  assert (Hs : has_shape 2 2 (deref (mem (example_state ∅ 1 unset false))
                                    (V (obj (example_state ∅ 1 unset false))))).
  { split; [reflexivity|]. repeat constructor. }
  split; [exact HV|]. split; [exact Hs|].
  destruct (X9_v_half_sum_of_squares 0 (example_state ∅ 1 unset false) 2 2 HV Hs)
    as (st' & Hout & Ev).
  exists st'. split; [exact Hout|]. rewrite Ev. vm_compute. reflexivity.
Defined.

Lemma objective_ext {Sd : Type} (a b : State Sd) :
  deref (mem a) (V (obj a)) = deref (mem b) (V (obj b)) ->
  deref (mem a) (W (obj a)) = deref (mem b) (W (obj b)) ->
  deref (mem a) (H (obj a)) = deref (mem b) (H (obj b)) ->
  objective a = objective b.
Proof. intros EV EW EH. unfold objective. rewrite EV, EW, EH. reflexivity. Qed.

Lemma seeded_V {Sd : Type} `{Seeder Sd} (st : State Sd) : V (obj (seeded st)) = V (obj st).
Proof. destruct (seeded_config st) as (E & _). symmetry. exact E. Qed.

(** X10.  The objective [factorize] reports in [final_obj] is the
    objective of the state it returns. *)
Theorem X10_final_obj_is_objective {Sd : Type} `{SeederOk Sd} (fuel : nat) (st : State Sd) :
  (V (obj st) < length (mem st))%nat -> 1 <= n_run (obj st) ->
  exists st', factorize (S fuel) st = Done st'
              /\ final_obj (obj st') = Some (objective st').
Proof.
  intros HV Hn. rewrite factorize_eq.
  destruct (Z.to_nat (n_run (obj st))) as [|n'] eqn:En; [lia|].
  eexists. split; [reflexivity|].
  rewrite Nat.iter_succ. set (s := Nat.iter n' run_step (prologue st)).
  unfold run_locals. cbn [finish with_obj obj set_final_obj final_obj].
  f_equal. symmetry.
  transitivity (objective (run_step s)); [reflexivity|].
  destruct (run_step_factors s) as (EW & EH & DW & DH).
  apply objective_ext.
  - destruct (run_step_config s) as (EV & _). rewrite <- EV, <- (seeded_V s).
    apply deref_prefix; [apply end_run_extends|].
    rewrite seeded_V.
    destruct (iter_config n' (prologue st)) as (EV' & _). fold s in EV'.
    rewrite <- EV'. change (V (obj (prologue st))) with (V (obj st)).
    pose proof (prefix_length _ _ (seeded_extends s)) as L1.
    pose proof (prefix_length _ _ (iter_extends n' (prologue st))) as L2. fold s in L2.
    pose proof (prefix_length _ _ (_set_params_extends st)) as L3.
    rewrite <- prologue_mem in L3. lia.
  - rewrite EW. exact DW.
  - rewrite EH. exact DH.
Qed.

Lemma X10_final_obj_is_objective_witness :
  (V (obj (example_state ∅ 2 unset false)) < length (mem (example_state ∅ 2 unset false)))%nat
  /\ 1 <= n_run (obj (example_state ∅ 2 unset false))
  /\ exists st', factorize 1 (example_state ∅ 2 unset false) = Done st'
                 /\ final_obj (obj st') = Some (objective st').
Proof.
  assert (HV : (V (obj (example_state ∅ 2 unset false))
                < length (mem (example_state ∅ 2 unset false)))%nat) by (simpl; lia).
  assert (Hn : 1 <= n_run (obj (example_state ∅ 2 unset false))) by (simpl; lia).
  split; [exact HV|]. split; [exact Hn|].
  exact (X10_final_obj_is_objective 0 (example_state ∅ 2 unset false) HV Hn).
Defined.

(** ** The tracker over any number of runs *)

Section TrackerRuns.
Context {Sd : Type} `{SeederOk Sd}.

Lemma iter_snapshots (st0 : State Sd) (n : nat) :
  tracked 0 st0 ->
  exists t, tracker (obj (Nat.iter n run_step st0)) = Some t
            /\ length t = n
            /\ NoDup (snapshot_locs t)
            /\ Forall (fun l => (l < length (mem (Nat.iter n run_step st0)))%nat)
                      (snapshot_locs t)
            /\ snapshots_hold st0 (Nat.iter n run_step st0) t.
Proof.
  intros Hstart. induction n as [|n IH].
  - destruct Hstart as (t & Et & Hl & Hnd & Hall).
    exists t. split; [exact Et|]. split; [exact Hl|]. split; [exact Hnd|].
    split; [exact Hall|].
    destruct t as [|a t']; [|discriminate]. intros j sn E. destruct j; discriminate.
  - destruct IH as (t & Et & Hl & Hnd & Hall & Hold).
    rewrite Nat.iter_succ. set (s := Nat.iter n run_step st0) in *.
    destruct (run_step_tracked n s) as (t' & Et' & Hl' & Hnd' & Hall').
    { exists t. repeat split; assumption. }
    destruct (run_step_snapshot s t Et)
      as (snap & Es & SW & SH & _ & _ & _ & DW & DH).
    rewrite Es in Et'. injection Et' as <-.
    exists (t ++ [snap]). split; [exact Es|]. split; [exact Hl'|].
    split; [exact Hnd'|]. split; [exact Hall'|].
    intros i sn Ei.
    destruct (lookup_app_Some t [snap] i sn) as [Hsplit _].
    destruct (Hsplit Ei) as [Ei'|[Hge Ei']].
    + destruct (Hold i sn Ei') as [EW EH].
      assert (Hin : forall l, In l [track_W sn; track_H sn] ->
                              (l < length (mem s))%nat).
      { intros l Hl0. rewrite Forall_forall in Hall. apply Hall.
        unfold snapshot_locs. apply list_elem_of_In, in_flat_map.
        exists sn. split; [apply list_elem_of_In, list_elem_of_lookup; eauto|].
        exact Hl0. }
      rewrite <- EW, <- EH. split; apply deref_prefix;
        try apply run_step_extends; apply Hin; simpl; auto.
    + assert (i = n) as ->.
      { apply lookup_lt_Some in Ei'. simpl in Ei'. lia. }
      rewrite Hl, Nat.sub_diag in Ei'. injection Ei' as <-.
      exact (conj DW DH).
Qed.

Lemma iter_untracked (st0 : State Sd) (n : nat) :
  tracker (obj st0) = None -> tracker (obj (Nat.iter n run_step st0)) = None.
Proof.
  intros E. induction n as [|n IH]; [exact E|].
  rewrite Nat.iter_succ. unfold run_step.
  apply end_run_untracked. rewrite seeded_tracker. exact IH.
Qed.
End TrackerRuns.



(** X12.  When [track] is not set, or is set with a single run, no tracker
    exists when [factorize] ends. *)
Theorem X12_no_tracker_without_several_runs {Sd : Type} `{SeederOk Sd} (fuel : nat)
        (st : State Sd) :
  track_requested (obj st) = false \/ n_run (obj st) <= 1 ->
  exists st',
    (factorize (S fuel) st = Done st' \/ factorize (S fuel) st = Raised UnboundLocalError st')
    /\ tracker (obj st') = None.
Proof.
  intros Hoff.
  destruct (factorize_ends fuel st) as (st' & s & Hout & -> & _ & _ & _ & _ & Et & _).
  exists st'. split; [exact Hout|]. rewrite Et.
  apply iter_untracked.
  change (tracker (obj (prologue st))) with (tracker (obj (_set_params st))).
  rewrite _set_params_tracker.
  destruct Hoff as [->|Hn]; [reflexivity|].
  destruct (Z.ltb_spec 1 (n_run (obj st))); [lia|].
  rewrite andb_false_r. reflexivity.
Qed.

Lemma X12_no_tracker_without_several_runs_witness :
  (track_requested (obj (example_state {[ "track" := VBool true ]} 1 unset false)) = false
   \/ n_run (obj (example_state {[ "track" := VBool true ]} 1 unset false)) <= 1)
  /\ exists st',
      (factorize 1 (example_state {[ "track" := VBool true ]} 1 unset false) = Done st'
       \/ factorize 1 (example_state {[ "track" := VBool true ]} 1 unset false)
          = Raised UnboundLocalError st')
      /\ tracker (obj st') = None.
Proof.
  assert (Hoff : track_requested
                   (obj (example_state {[ "track" := VBool true ]} 1 unset false)) = false
                 \/ n_run (obj (example_state {[ "track" := VBool true ]} 1 unset false)) <= 1)
    by (right; simpl; lia).
  split; [exact Hoff|].
  exact (X12_no_tracker_without_several_runs 0
           (example_state {[ "track" := VBool true ]} 1 unset false) Hoff).
Defined.

(** ** The callback *)

Section CallbackRuns.
Context {Sd : Type} `{Seeder Sd}.

Lemma run_step_calls (s : State Sd) :
  calls (run_step s)
  = if callback (obj s) then calls s ++ [shown_fit s] else calls s.
Proof.
  destruct (seeded_config s) as (_ & _ & _ & _ & _ & Ec & _).
  assert (Eseed : calls (seeded s) = calls s).
  { unfold seeded, start_run.
    destruct (initialize _ _ _ _ _) as [[[lw lh] h] sd]. reflexivity. }
  unfold run_step, shown_fit, end_run. rewrite Ec, <- Eseed.
  destruct (callback (obj (seeded s))); simpl;
    destruct (tracker (obj (seeded s))); reflexivity.
Qed.

Lemma iter_callback (n : nat) (st0 : State Sd) :
  callback (obj (Nat.iter n run_step st0)) = callback (obj st0).
Proof.
  destruct (iter_config n st0) as (_ & _ & _ & _ & _ & E & _). symmetry. exact E.
Qed.

Lemma iter_calls (n : nat) (st0 : State Sd) :
  calls (Nat.iter n run_step st0)
  = if callback (obj st0)
    then calls st0 ++ map (fun j => shown_fit (Nat.iter j run_step st0)) (seq 0 n)
    else calls st0.
Proof.
  induction n as [|n IH].
  - simpl. destruct (callback (obj st0)); [rewrite app_nil_r|]; reflexivity.
  - rewrite Nat.iter_succ, run_step_calls, iter_callback, IH.
    destruct (callback (obj st0)); [|reflexivity].
    rewrite seq_S, map_app, app_assoc. reflexivity.
Qed.

Lemma shown_fit_fields (s : State Sd) :
  n_iter (shown_fit s) = n_iter (obj s)
  /\ final_obj (shown_fit s) = Some (objective (seeded s))
  /\ tracker (shown_fit s) = tracker (obj s)
  /\ W (shown_fit s) = W (obj (seeded s)) /\ H (shown_fit s) = H (obj (seeded s)).
Proof.
  unfold shown_fit. cbn [set_final_obj n_iter final_obj tracker W H].
  destruct (seeded_v s) as [_ En].
  assert (Et : tracker (obj (seeded s)) = tracker (obj s)).
  { unfold seeded, start_run.
    destruct (initialize _ _ _ _ _) as [[[lw lh] h] sd]. reflexivity. }
  repeat split; assumption.
Qed.
End CallbackRuns.

Lemma prologue_tracker_cases {Sd : Type} (st : State Sd) :
  tracker (obj (prologue st)) = None \/ tracker (obj (prologue st)) = Some [].
Proof.
  change (tracker (obj (prologue st))) with (tracker (obj (_set_params st))).
  rewrite _set_params_tracker.
  destruct (track_requested (obj st) && (1 <? n_run (obj st))); auto.
Qed.

Lemma iter_tracker_length {Sd : Type} `{SeederOk Sd} (st : State Sd) (j : nat)
      (t : list Mf_track) :
  tracker (obj (Nat.iter j run_step (prologue st))) = Some t -> length t = j.
Proof.
  intros Et. destruct (prologue_tracker_cases st) as [En|Es].
  - rewrite (iter_untracked (prologue st) j En) in Et. discriminate.
  - destruct (iter_snapshots (prologue st) j) as (t' & Et' & Hl & _).
    { exists []. split; [exact Es|]. repeat split; constructor. }
    congruence.
Qed.


